(** * MCQ auditor service (main.py): segmentation and audit orchestration

    A shallow embedding of [main.py] and the properties of its question
    segmenter ([parse_mcqs_from_text]) and of its request handler
    ([audit_document]).

    Conventions of the embedding:
    - a Python [str] is the list of its code points ([text]);
    - the [re] module is embedded as a small backtracking matcher
      ([Module Re]) with the constructs the two patterns of the program use;
    - the outside world (environment variable, document host, model
      service) is a record of functions ([env]); the handler runs in a
      state-and-exception monad whose state is the trace of the external
      effects it performed ([EvGet], [EvCall], [EvSleep]);
    - console output ([print]) of the request path is not part of the trace;
    - the interpreter's table of decimal digits beyond ASCII is a
      parameter ([unicode_decimal]), of which the proofs assume that no
      digit is white space and that the value of a digit is at most 9;
    - [int] has the limit of 4300 digits that the interpreter sets for
      the conversion between [int] and [str];
    - the status of a response is that of the framework: 200 for a
      returned list it can render as JSON, 500 for one it cannot and
      for an exception other than [HTTPException]. *)

From Stdlib Require Import List NArith ZArith Lia Bool Ascii PrimFloat.
From Stdlib Require String Strings.Byte.
Import ListNotations String.StringSyntax.
Delimit Scope string_scope with string.

(* ================================================================== *)
(** * Python values and string operations *)
(* ================================================================== *)

Module Py.

(** A [str] is a sequence of Unicode code points. *)
Definition text := list N.

(** A literal of the program, given by its (ASCII) characters. *)
Definition str (s : String.string) : text :=
  map N_of_ascii (String.list_ascii_of_string s).

Fixpoint text_eqb (a b : text) : bool :=
  match a, b with
  | [], [] => true
  | x :: a', y :: b' => (x =? y)%N && text_eqb a' b'
  | _, _ => false
  end.

(** [str.isspace] on one code point, which is also the class [\s] of a
    [str] pattern: the 29 white-space code points of the interpreter. *)
Definition is_space (c : N) : bool :=
  (((9 <=? c) && (c <=? 13)) || ((28 <=? c) && (c <=? 32))
   || (c =? 133) || (c =? 160) || (c =? 5760)
   || ((8192 <=? c) && (c <=? 8202))
   || (c =? 8232) || (c =? 8233) || (c =? 8239) || (c =? 8287)
   || (c =? 12288))%N.

Fixpoint dropWhile (p : N -> bool) (s : text) : text :=
  match s with
  | c :: s' => if p c then dropWhile p s' else s
  | [] => []
  end.

Fixpoint takeWhile (p : N -> bool) (s : text) : text :=
  match s with
  | c :: s' => if p c then c :: takeWhile p s' else []
  | [] => []
  end.

Definition lstrip (s : text) : text := dropWhile is_space s.
Definition rstrip (s : text) : text := rev (dropWhile is_space (rev s)).

(** [s.strip()] *)
Definition strip (s : text) : text := lstrip (rstrip s).

Fixpoint startswith (p s : text) : bool :=
  match p, s with
  | [], _ => true
  | a :: p', b :: s' => (a =? b)%N && startswith p' s'
  | _ :: _, [] => false
  end.

(** [p in s] for two strings. *)
Fixpoint contains (p s : text) : bool :=
  startswith p s ||
  match s with
  | [] => false
  | _ :: s' => contains p s'
  end.

(** The values [json.loads] can return, which are the values the
    handler puts into its report. A [dict] is kept as the list of its
    items in insertion order. *)
#[local] Unset Elimination Schemes.
Inductive pyval :=
| PNone
| PBool (b : bool)
| PInt (z : Z)
| PFloat (f : float)
| PStr (s : text)
| PList (l : list pyval)
| PDict (items : list (text * pyval)).
#[local] Set Elimination Schemes.

(** Truth value of an object ([if v:], [not v]). *)
Definition truthy (v : pyval) : bool :=
  match v with
  | PNone => false
  | PBool b => b
  | PInt z => negb (z =? 0)%Z
  | PFloat f => negb (PrimFloat.eqb f 0%float)
  | PStr s => negb (text_eqb s [])
  | PList l => match l with [] => false | _ => true end
  | PDict d => match d with [] => false | _ => true end
  end.

(** [v == s] for a string literal [s]: only a [str] equals a [str]. *)
Definition eq_str (v : pyval) (s : text) : bool :=
  match v with
  | PStr t => text_eqb t s
  | _ => false
  end.

(** [sys.int_info.default_max_str_digits]: the largest number of
    digits the interpreter converts between [int] and [str] in base
    10. The program does not change it, and it is the limit of a
    process started with the interpreter's own settings. *)
Definition int_max_str_digits : nat := 4300.

(** A [str] that [encode('utf-8')] accepts: no surrogate code point. *)
Definition encodable (s : text) : bool :=
  forallb (fun c => negb ((55296 <=? c) && (c <=? 57343))%N) s.

(** What the framework can send: it renders the value the handler
    returns with [json.dumps(..., ensure_ascii=False, allow_nan=False)]
    and encodes the result as UTF-8. That raises ValueError on a float
    that is not finite and on an [int] of more digits than the limit,
    and UnicodeEncodeError on a surrogate in a string or in a key. How
    deep a value may nest before the recursion limit of the interpreter
    stops the encoder is not modelled; the reports whose status is
    stated below hold flat verdicts only. *)
Fixpoint renderable (v : pyval) : bool :=
  match v with
  | PNone => true
  | PBool _ => true
  | PInt z => (Z.abs z <? 10 ^ Z.of_nat int_max_str_digits)%Z
  | PFloat f => PrimFloat.is_finite f
  | PStr s => encodable s
  | PList l => forallb renderable l
  | PDict items =>
      forallb (fun item => let '(k, x) := item in encodable k && renderable x)
              items
  end.

End Py.
Import Py.

(* ================================================================== *)
(** * The regular-expression engine *)
(* ================================================================== *)

Module Re.

(** The pattern constructs that occur in the program. A character class
    is its membership test; repetition is only ever applied to a
    character class ([\s*], [\d+], [.*?], [[...]+]). *)
Inductive re :=
| Chr (p : N -> bool)                   (* one character of a class *)
| Seq (r1 r2 : re)                      (* r1 r2 *)
| Alt (r1 r2 : re)                      (* r1|r2 *)
| Star (greedy : bool) (p : N -> bool)  (* p* and p*? *)
| Plus (greedy : bool) (p : N -> bool)  (* p+ and p+? *)
| Group (n : nat) (r : re)              (* (r), capture group n *)
| Ahead (r : re)                        (* (?=r) *)
| EndZ.                                 (* \Z *)

Definition lit (c : N) : N -> bool := N.eqb c.
Definition any : N -> bool := fun _ => true.      (* . with re.DOTALL *)

(** Capture marks: group number, start and end position. *)
Definition caps := list (nat * (nat * nat)).

(** A continuation receives the position reached, the text that is
    left there and the marks; it answers with the end of the whole
    match and the final marks, or fails and so asks for backtracking. *)
Definition cont := nat -> text -> caps -> option (nat * caps).

Fixpoint star_greedy (p : N -> bool) (k : cont) (i : nat) (s : text) (g : caps)
  : option (nat * caps) :=
  match s with
  | c :: s' =>
      if p c then
        match star_greedy p k (S i) s' g with
        | Some r => Some r
        | None => k i s g
        end
      else k i s g
  | [] => k i s g
  end.

Fixpoint star_lazy (p : N -> bool) (k : cont) (i : nat) (s : text) (g : caps)
  : option (nat * caps) :=
  match k i s g with
  | Some r => Some r
  | None =>
      match s with
      | c :: s' => if p c then star_lazy p k (S i) s' g else None
      | [] => None
      end
  end.

Definition star (greedy : bool) := if greedy then star_greedy else star_lazy.

(** [run r k i s g]: match [r] at position [i], where [s] is the text
    from [i] on, then continue with [k]; alternatives are tried in the
    order of a backtracking matcher. *)
Fixpoint run (r : re) (k : cont) (i : nat) (s : text) (g : caps)
  : option (nat * caps) :=
  match r with
  | Chr p =>
      match s with
      | c :: s' => if p c then k (S i) s' g else None
      | [] => None
      end
  | Seq r1 r2 => run r1 (run r2 k) i s g
  | Alt r1 r2 =>
      match run r1 k i s g with
      | Some x => Some x
      | None => run r2 k i s g
      end
  | Star greedy p => star greedy p k i s g
  | Plus greedy p =>
      match s with
      | c :: s' => if p c then star greedy p k (S i) s' g else None
      | [] => None
      end
  | Group n r' => run r' (fun i' s' g' => k i' s' ((n, (i, i')) :: g')) i s g
  | Ahead r' =>
      match run r' (fun i' _ g' => Some (i', g')) i s g with
      | Some (_, g') => k i s g'
      | None => None
      end
  | EndZ =>
      match s with
      | [] => k i s g
      | _ :: _ => None
      end
  end.

(** A match object: the span of the whole match and the capture marks. *)
Record match_obj := { m_start : nat; m_end : nat; m_caps : caps }.

(** One attempt at position [i]. After an empty match the scanner asks
    the next match at the same position to be non-empty ([must_advance]). *)
Definition match_at (r : re) (must_advance : bool) (i : nat) (s : text)
  : option match_obj :=
  match run r (fun i' _ g' =>
                 if must_advance && (i' =? i)%nat then None else Some (i', g'))
            i s [] with
  | Some (e, g) => Some {| m_start := i; m_end := e; m_caps := g |}
  | None => None
  end.

(** [pattern.search]: the first position from [i] on at which the
    pattern matches; only the first attempt is under [must_advance]. *)
Fixpoint search_from (r : re) (must_advance : bool) (i : nat) (s : text)
  : option match_obj :=
  match match_at r must_advance i s with
  | Some m => Some m
  | None =>
      match s with
      | [] => None
      | _ :: s' => search_from r false (S i) s'
      end
  end.

Definition search (r : re) (s : text) : option match_obj :=
  search_from r false 0 s.

(** [re.finditer], consumed to its end: search, then search again from
    the end of the match found. The scanner makes at most two matches
    per position, which bounds the iteration. *)
Fixpoint scan (fuel : nat) (r : re) (must_advance : bool) (i : nat) (s : text)
  : list match_obj :=
  match fuel with
  | O => []
  | S fuel' =>
      match search_from r must_advance i s with
      | None => []
      | Some m =>
          m :: scan fuel' r (m_end m =? m_start m)%nat (m_end m)
                    (skipn (m_end m - i) s)
      end
  end.

Definition finditer (r : re) (s : text) : list match_obj :=
  scan (2 * length s + 2) r false 0 s.

Fixpoint mark (n : nat) (g : caps) : option (nat * nat) :=
  match g with
  | [] => None
  | (n', span) :: g' => if (n' =? n)%nat then Some span else mark n g'
  end.

Definition slice (s : text) (a b : nat) : text := firstn (b - a) (skipn a s).

(** [m.group(n)] for [n >= 1] on the subject [s]; [None] for a group
    that took no part in the match. *)
Definition group (s : text) (m : match_obj) (n : nat) : option text :=
  match mark n (m_caps m) with
  | Some (a, b) => Some (slice s a b)
  | None => None
  end.

End Re.

(* ================================================================== *)
(** * The program *)
(* ================================================================== *)

Arguments str s%_string.

(** [bytes.decode('utf-8')] (strict): [None] stands for UnicodeDecodeError. *)
Definition continuation (b : N) : bool := ((128 <=? b) && (b <=? 191))%N.

Fixpoint utf8_decode (bs : list N) : option text :=
  match bs with
  | [] => Some []
  | b0 :: r0 =>
      if (b0 <? 128)%N then option_map (cons b0) (utf8_decode r0)
      else if ((194 <=? b0) && (b0 <=? 223))%N then
        match r0 with
        | b1 :: r1 =>
            if continuation b1
            then option_map (cons ((b0 - 192) * 64 + (b1 - 128))%N) (utf8_decode r1)
            else None
        | _ => None
        end
      else if ((224 <=? b0) && (b0 <=? 239))%N then
        match r0 with
        | b1 :: b2 :: r2 =>
            if continuation b1 && continuation b2
               && (negb (b0 =? 224) || (160 <=? b1))%N
               && (negb (b0 =? 237) || (b1 <=? 159))%N
            then option_map
                   (cons ((b0 - 224) * 4096 + (b1 - 128) * 64 + (b2 - 128))%N)
                   (utf8_decode r2)
            else None
        | _ => None
        end
      else if ((240 <=? b0) && (b0 <=? 244))%N then
        match r0 with
        | b1 :: b2 :: b3 :: r3 =>
            if continuation b1 && continuation b2 && continuation b3
               && (negb (b0 =? 240) || (144 <=? b1))%N
               && (negb (b0 =? 244) || (b1 <=? 143))%N
            then option_map
                   (cons ((b0 - 240) * 262144 + (b1 - 128) * 4096
                          + (b2 - 128) * 64 + (b3 - 128))%N)
                   (utf8_decode r3)
            else None
        | _ => None
        end
      else None
  end.

Definition decode (content : list Byte.byte) : option text :=
  utf8_decode (map Byte.to_N content).

(** ** The outside world *)

(** What [requests.get] does: a response, or a [RequestException]. *)
Inductive get_outcome :=
| Response (status_code : Z) (content : list Byte.byte)
| RequestException (message : text).

(** What the body of the [try] in [run_mcq_audit_gemini] does: the model
    call, [response.text] and [json.loads] produce a value, or one of
    them raises an exception [e] of the class [Exception], which the
    [except] clause catches and of which the program reads [str(e)].
    What is raised outside that class (a keyboard interrupt, the exit
    of the interpreter, the cancellation of the task) ends the request
    and is not among the outcomes of a call here. *)
Inductive attempt :=
| Loaded (v : pyval)
| Failed (message : text).

(** The environment of one request. [generate n t] is what the model
    service does on its [n]-th call (counted from 1) of this request,
    made with the question text [t]. *)
Record env := {
  GOOGLE_API_KEY : option text;
  requests_get : text -> get_outcome;
  generate : nat -> text -> attempt
}.

Inductive event :=
| EvGet (url : text)
| EvCall (index : nat) (question_text : text)
| EvSleep (seconds : Z).

Inductive exn :=
| HTTPException (status_code : Z) (detail : text)
| ValueError
| UnicodeDecodeError.

Inductive result (A : Type) :=
| Ok (a : A)
| Raise (e : exn).
Arguments Ok {A} a.
Arguments Raise {A} e.

(** State (the trace so far) and exceptions. *)
Definition M (A : Type) := list event -> result A * list event.

Definition ret {A} (a : A) : M A := fun tr => (Ok a, tr).
Definition raise {A} (e : exn) : M A := fun tr => (Raise e, tr).
Definition bind {A B} (m : M A) (f : A -> M B) : M B :=
  fun tr =>
    match m tr with
    | (Ok a, tr') => f a tr'
    | (Raise e, tr') => (Raise e, tr')
    end.
Definition emit (e : event) : M unit := fun tr => (Ok tt, tr ++ [e]).

Notation "x <- m ;; k" := (bind m (fun x => k))
  (at level 61, m at next level, right associativity).
Notation "m ;;; k" := (bind m (fun _ => k))
  (at level 61, right associativity).

Definition is_call (e : event) : bool :=
  match e with EvCall _ _ => true | _ => false end.

Definition calls_made (tr : list event) : nat := List.length (filter is_call tr).

(** [not x] for a value that is [None] or a [str]. *)
Definition absent (x : option text) : bool :=
  match x with
  | None => true
  | Some s => text_eqb s []
  end.

(** The status a client sees: the list returned is sent with 200 when
    the framework can render it and with 500 when rendering it raises,
    an [HTTPException] with its own status, any other exception with
    500. *)
Definition status_of (r : result (list pyval)) : Z :=
  match r with
  | Ok report => if forallb renderable report then 200 else 500
  | Raise (HTTPException c _) => c
  | Raise _ => 500
  end.

(** ** Start of the process (lines 16-25) *)

Inductive boot :=
| Aborted                       (* the import raised: no service *)
| Serving (configured : bool).  (* the app is up; [genai.configure] ran or not *)

Definition module_init (key : option text) : list text * boot :=
  if absent key
  then ([str "FATAL ERROR: 'GOOGLE_API_KEY' not found in .env file."],
        Serving false)
  else ([str "Google AI client configuring...";
         str "Google AI client configured successfully."],
        Serving true).

(** ** Parsed questions *)

(** The dict with the keys [q_num_str] and [full_text]. *)
Record question := { q_num_str : text; full_text : text }.

(** ** Concrete worlds for the examples *)

(** A table with no decimal digit beyond ASCII. *)
Definition ascii_digits_only : N -> option N := fun _ => None.

(** A table with the Arabic-Indic digits, U+0660 to U+0669. *)
Definition arabic_indic_digits : N -> option N :=
  fun c => if ((1632 <=? c) && (c <=? 1641))%N then Some (c - 1632)%N else None.

Definition sample_bytes : list Byte.byte :=
  String.list_byte_of_string
    "Quiz. Q1 What is 2+2? A)4 B)2+2 C)5 D)6 Q2 Pick one. A)a B)b C)c D)d Q 3 Last?".

Definition sample_text : text :=
  str "Quiz. Q1 What is 2+2? A)4 B)2+2 C)5 D)6 Q2 Pick one. A)a B)b C)c D)d Q 3 Last?".

Definition sample_url : text := str "https://docs.google.com/document/d/1AbC-_x/edit".

Definition sample_verdict (q_no : Z) : pyval :=
  PDict [ (str "Q_no", PInt q_no);
          (str "Option Status", PStr (str "Faulty"));
          (str "Issue Summary", PStr (str "MathEquivalent: A & B")) ].

Definition sample_q1 : question :=
  {| q_num_str := str "1"; full_text := str "Q1 What is 2+2? A)4 B)2+2 C)5 D)6" |}.
Definition sample_q2 : question :=
  {| q_num_str := str "2"; full_text := str "Q2 Pick one. A)a B)b C)c D)d" |}.
Definition sample_q3 : question :=
  {| q_num_str := str "3"; full_text := str "Q 3 Last?" |}.

(** The model answers every call, and always names question 7. *)
Definition obliging : env :=
  {| GOOGLE_API_KEY := Some (str "secret");
     requests_get := fun _ => Response 200 sample_bytes;
     generate := fun _ _ => Loaded (sample_verdict 7) |}.

(** The quota is exhausted at the second call. *)
Definition throttled : env :=
  {| GOOGLE_API_KEY := Some (str "secret");
     requests_get := fun _ => Response 200 sample_bytes;
     generate := fun n _ =>
       match n with
       | 2 => Failed (str "429 Resource has been exhausted (e.g. check quota).")
       | _ => Loaded (sample_verdict (Z.of_nat n))
       end |}.

(** The second call fails for another reason. *)
Definition flaky : env :=
  {| GOOGLE_API_KEY := Some (str "secret");
     requests_get := fun _ => Response 200 sample_bytes;
     generate := fun n _ =>
       match n with
       | 2 => Failed (str "500 An internal error has occurred.")
       | _ => Loaded (sample_verdict (Z.of_nat n))
       end |}.

(** The document has no question, or is empty. *)
Definition prose : env :=
  {| GOOGLE_API_KEY := Some (str "secret");
     requests_get := fun _ =>
       Response 200 (String.list_byte_of_string "Minutes of the meeting.");
     generate := fun n _ => Loaded (sample_verdict (Z.of_nat n)) |}.

Definition blank : env :=
  {| GOOGLE_API_KEY := Some (str "secret");
     requests_get := fun _ => Response 200 [];
     generate := fun n _ => Loaded (sample_verdict (Z.of_nat n)) |}.

(** The credential is not set. *)
Definition keyless : env :=
  {| GOOGLE_API_KEY := None;
     requests_get := fun _ => Response 200 sample_bytes;
     generate := fun n _ => Loaded (sample_verdict (Z.of_nat n)) |}.

(** A link without a document id. *)
Definition plain_link : text := str "https://example.com/my-doc".

(** The document host refuses. *)
Definition forbidden : env :=
  {| GOOGLE_API_KEY := Some (str "secret");
     requests_get := fun _ => Response 403 [];
     generate := fun n _ => Loaded (sample_verdict (Z.of_nat n)) |}.

(** The body is not UTF-8. *)
Definition garbled : env :=
  {| GOOGLE_API_KEY := Some (str "secret");
     requests_get := fun _ => Response 200 [Byte.x51; Byte.xff; Byte.x31];
     generate := fun n _ => Loaded (sample_verdict (Z.of_nat n)) |}.


(** The second reply is an empty object. *)
Definition mute : env :=
  {| GOOGLE_API_KEY := Some (str "secret");
     requests_get := fun _ => Response 200 sample_bytes;
     generate := fun n _ =>
       match n with
       | 2 => Loaded (PDict [])
       | _ => Loaded (sample_verdict (Z.of_nat n))
       end |}.

(** A document whose one question is numbered with 4301 digits. *)
Definition long_label_text : text := 81%N :: repeat 49%N 4301.


Definition long_label_block : question :=
  {| q_num_str := repeat 49%N 4301; full_text := long_label_text |}.


(** A verdict of the three-field shape whose summary holds a lone
    surrogate, as [json.loads] builds it from the escape [\ud800]. *)
Definition surrogate_verdict : pyval :=
  PDict [ (str "Q_no", PInt 1);
          (str "Option Status", PStr (str "Faulty"));
          (str "Issue Summary", PStr [55296%N]) ].


Section Auditor.

(** The decimal value of a code point beyond ASCII, if it is a decimal
    digit (category Nd): the interpreter's Unicode table, which both
    [\d] and [int] consult. *)
Variable unicode_decimal : N -> option N.

Definition to_decimal (c : N) : option N :=
  if (c <? 128)%N
  then (if ((48 <=? c) && (c <=? 57))%N then Some (c - 48)%N else None)
  else unicode_decimal c.

(** The class [\d]. *)
Definition is_digit (c : N) : bool :=
  match to_decimal c with Some _ => true | None => false end.

(** *** [int(s)] on a [str] *)

(** White space around the number: in ASCII only tab to carriage
    return and the space. *)
Definition int_space (c : N) : bool :=
  if (c <? 128)%N then (((9 <=? c) && (c <=? 13)) || (c =? 32))%N else is_space c.

(** Digits, with single underscores between digits. *)
Fixpoint int_digits (acc : Z) (after_digit : bool) (s : text) : option Z :=
  match s with
  | [] => if after_digit then Some acc else None
  | c :: s' =>
      match to_decimal c with
      | Some d => int_digits (10 * acc + Z.of_N d) true s'
      | None =>
          if (c =? 95)%N && after_digit then int_digits acc false s' else None
      end
  end.

(** The number a string denotes for [int]: white space around it is
    dropped, a sign may come first. *)
Definition int_literal (s : text) : option Z :=
  let s1 := rev (dropWhile int_space (rev (dropWhile int_space s))) in
  match s1 with
  | [] => None
  | c :: s2 =>
      if (c =? 45)%N then option_map Z.opp (int_digits 0 false s2)
      else if (c =? 43)%N then int_digits 0 false s2
      else int_digits 0 false s1
  end.

(** [int(s)]; [None] stands for ValueError, which is raised for what is
    not a number and, before any conversion is tried, for what is
    written with more digits than the limit (leading zeros count,
    underscores do not). *)
Definition py_int (s : text) : option Z :=
  if List.length (filter is_digit s) <=? int_max_str_digits
  then int_literal s
  else None.

(** *** Helper functions (lines 77-108) *)

(** [[a-zA-Z0-9-_]] *)
Definition id_char (c : N) : bool :=
  (((97 <=? c) && (c <=? 122)) || ((65 <=? c) && (c <=? 90))
   || ((48 <=? c) && (c <=? 57)) || (c =? 45) || (c =? 95))%N.

(** [r'/d/([a-zA-Z0-9-_]+)'] *)
Definition doc_id_regex : Re.re :=
  Re.Seq (Re.Chr (Re.lit 47))
    (Re.Seq (Re.Chr (Re.lit 100))
       (Re.Seq (Re.Chr (Re.lit 47))
          (Re.Group 1 (Re.Plus true id_char)))).

Definition extract_doc_id (url : text) : option text :=
  match Re.search doc_id_regex url with
  | Some m => Re.group url m 1
  | None => None
  end.

(** The letter Q. *)
Definition Q : N := 81.

(** [r'(Q\s*(\d+)\s*.*?)(?=Q\s*\d+\s*|\Z)'], compiled with [re.DOTALL] *)
Definition regex : Re.re :=
  Re.Seq
    (Re.Group 1
       (Re.Seq (Re.Chr (Re.lit Q))
          (Re.Seq (Re.Star true is_space)
             (Re.Seq (Re.Group 2 (Re.Plus true is_digit))
                (Re.Seq (Re.Star true is_space)
                   (Re.Star false Re.any))))))
    (Re.Ahead
       (Re.Alt
          (Re.Seq (Re.Chr (Re.lit Q))
             (Re.Seq (Re.Star true is_space)
                (Re.Seq (Re.Plus true is_digit)
                   (Re.Star true is_space))))
          Re.EndZ)).

(** [match.group(n)] where the group is known to have taken part in
    the match (see [regex_groups_set]). *)
Definition group_text (s : text) (m : Re.match_obj) (n : nat) : text :=
  match Re.group s m n with
  | Some t => t
  | None => []
  end.

Definition parse_mcqs_from_text (doc_text : text) : list question :=
  fold_left
    (fun parsed_questions m =>
       let full_text := strip (group_text doc_text m 1) in
       let q_num := strip (group_text doc_text m 2) in
       if negb (text_eqb full_text [])
       then parsed_questions ++ [{| q_num_str := q_num; full_text := full_text |}]
       else parsed_questions)
    (Re.finditer regex doc_text) [].

(** *** The words of the specification about segmentation *)

(** A question marker starts the text: the letter Q, optional white
    space, and at least one digit. *)
Definition marker_at (s : text) : bool :=
  match s with
  | c :: s' =>
      (c =? Q)%N &&
      match dropWhile is_space s' with
      | d :: _ => is_digit d
      | [] => false
      end
  | [] => false
  end.

(** The marker by itself, [Q\s*\d+]: what counts as an occurrence. *)
Definition marker_regex : Re.re :=
  Re.Seq (Re.Chr (Re.lit Q))
    (Re.Seq (Re.Star true is_space) (Re.Plus true is_digit)).

(** The number of occurrences of the marker in a text. *)
Fixpoint count_markers (s : text) : nat :=
  match s with
  | [] => 0
  | _ :: s' => (if marker_at s then 1 else 0) + count_markers s'
  end.

(** The number of characters before the next marker, or before the
    end of the text when no marker follows. *)
Fixpoint to_boundary (s : text) : nat :=
  match s with
  | [] => 0
  | _ :: s' => if marker_at s then 0 else S (to_boundary s')
  end.

(** The text is at a marker or at its end: what the lookahead tests. *)
Definition at_boundary (s : text) : bool :=
  marker_at s || match s with [] => true | _ :: _ => false end.

(** The digits right after the Q (and optional white space) at the
    head of a block. *)
Definition header_digits (raw : text) : text :=
  match raw with
  | _ :: r => takeWhile is_digit (dropWhile is_space r)
  | [] => []
  end.

(** The block that starts at a marker: the text up to the next
    boundary, stripped, with the digits of its header. *)
Definition block_at (s : text) : question :=
  {| q_num_str := header_digits s;
     full_text := strip (firstn (1 + to_boundary (tl s)) s) |}.

(** One block for every marker, in the order of the text. *)
Fixpoint blocks (s : text) : list question :=
  match s with
  | [] => []
  | _ :: s' => (if marker_at s then [block_at s] else []) ++ blocks s'
  end.

(** The span and the marks of the match that starts at a marker at
    position [i], where [s] is the text from [i] on. *)
Definition segment (i : nat) (s : text) : Re.match_obj :=
  let a := i + 1 + List.length (takeWhile is_space (tl s)) in
  let b := a + List.length (header_digits s) in
  let e := i + 1 + to_boundary (tl s) in
  {| Re.m_start := i; Re.m_end := e; Re.m_caps := [(1, (i, e)); (2, (a, b))] |}.

Fixpoint segments (i : nat) (s : text) : list Re.match_obj :=
  match s with
  | [] => []
  | _ :: s' => (if marker_at s then [segment i s] else []) ++ segments (S i) s'
  end.

(** Consecutive spans that cover the positions from [a] to [b]. *)
Fixpoint tiles (ms : list Re.match_obj) (a b : nat) : Prop :=
  match ms with
  | [] => a = b
  | m :: ms' => Re.m_start m = a /\ a < Re.m_end m /\ tiles ms' (Re.m_end m) b
  end.

(** The dict the loop of [parse_mcqs_from_text] builds from a match. *)
Definition to_question (doc_text : text) (m : Re.match_obj) : question :=
  {| q_num_str := strip (group_text doc_text m 2);
     full_text := strip (group_text doc_text m 1) |}.

(** A span starts at a marker, ends at the next boundary and has no
    marker in between; group 1 is the whole span. *)
Definition span_ok (doc_text : text) (m : Re.match_obj) : Prop :=
  Re.group doc_text m 1
  = Some (Re.slice doc_text (Re.m_start m) (Re.m_end m))
  /\ marker_at (skipn (Re.m_start m) doc_text) = true
  /\ at_boundary (skipn (Re.m_end m) doc_text) = true
  /\ forall p, Re.m_start m < p < Re.m_end m ->
               marker_at (skipn p doc_text) = false.

(** *** The request handler and the model client (lines 81-92, 113-195) *)

Variable E : env.

Definition get_google_doc_text (doc_id : text) : M (option text) :=
  let url := str "https://docs.google.com/document/d/" ++ doc_id
             ++ str "/export?format=txt" in
  emit (EvGet url) ;;;
  match requests_get E url with
  | Response status_code content =>
      if (status_code =? 200)%Z then
        match decode content with
        | Some t => ret (Some t)
        | None => raise UnicodeDecodeError
        end
      else ret None
  | RequestException _ => ret None
  end.

Definition RATE_LIMIT_ERROR : text := str "RATE_LIMIT_ERROR".

(** One call of the model service; its number is one more than the
    number of calls made so far in this request. *)
Definition run_mcq_audit_gemini (one_question_text : text) : M pyval :=
  fun tr =>
    let index := S (calls_made tr) in
    let tr' := tr ++ [EvCall index one_question_text] in
    match generate E index one_question_text with
    | Loaded v => (Ok v, tr')
    | Failed e =>
        if contains (str "429") e
        then (Ok (PStr RATE_LIMIT_ERROR), tr')
        else (Ok PNone, tr')
    end.

(** [int(question['q_num_str'])] *)
Definition int_of_label (q : question) : M Z :=
  match py_int (q_num_str q) with
  | Some z => ret z
  | None => raise ValueError
  end.

(** The dict literal of the two synthesized entries. *)
Definition inconclusive (q_no : Z) (issue_summary : text) : pyval :=
  PDict [ (str "Q_no", PInt q_no);
          (str "Option Status", PStr (str "Inconclusive"));
          (str "Issue Summary", PStr issue_summary) ].

(** The [for] loop of [audit_document] (lines 164-192) followed by the
    final [return] (line 195); [final_audit_list] is the list built so
    far. A result in the rate-limit branch leaves the loop and the
    function at once. *)
Fixpoint audit_loop (parsed_questions : list question)
         (final_audit_list : list pyval) : M (list pyval) :=
  match parsed_questions with
  | [] => ret final_audit_list
  | question :: rest =>
      result_obj <- run_mcq_audit_gemini (full_text question) ;;
      if eq_str result_obj RATE_LIMIT_ERROR then
        q_no <- int_of_label question ;;
        ret (final_audit_list
               ++ [inconclusive q_no (str "Failed: API Rate Limit hit.")])
      else
        final_audit_list' <-
          (if truthy result_obj then
             ret (final_audit_list ++ [result_obj])
           else
             q_no <- int_of_label question ;;
             ret (final_audit_list
                    ++ [inconclusive q_no
                          (str "Failed to audit (API or JSON error)")])) ;;
        emit (EvSleep 5) ;;;
        audit_loop rest final_audit_list'
  end.

(** [POST /audit-doc] with the body field [doc_url]. The tests
    [if not doc_id] and [if not doc_text] hold for [None] and for the
    empty string. *)
Definition audit_document (doc_url : text) : M (list pyval) :=
  if absent (GOOGLE_API_KEY E) then
    raise (HTTPException 500 (str "Server is missing GOOGLE_API_KEY"))
  else
    match extract_doc_id doc_url with
    | None | Some [] =>
        raise (HTTPException 400 (str "Invalid Google Doc link."))
    | Some doc_id =>
        got <- get_google_doc_text doc_id ;;
        match got with
        | None | Some [] =>
            raise (HTTPException 404
                     (str "Failed to get document text. Is it public?"))
        | Some doc_text =>
            let parsed_questions := parse_mcqs_from_text doc_text in
            match parsed_questions with
            | [] =>
                raise (HTTPException 404
                         (str "No valid question blocks (e.g., 'Q1') found."))
            | _ :: _ => audit_loop parsed_questions []
            end
        end
    end.

(** *** The words of the specification about the audit *)

(** What the classifier client ([run_mcq_audit_gemini]) returns on its
    [n]-th call, made with the text [t]: the verdict, the rate-limit
    signal, or [None] for any other failure. *)
Definition answer (n : nat) (t : text) : pyval :=
  match generate E n t with
  | Loaded v => v
  | Failed e => if contains (str "429") e then PStr RATE_LIMIT_ERROR else PNone
  end.

Definition rate_limited (v : pyval) : bool := eq_str v RATE_LIMIT_ERROR.

Fixpoint lookup (key : text) (items : list (text * pyval)) : option pyval :=
  match items with
  | [] => None
  | (k, v) :: items' => if text_eqb k key then Some v else lookup key items'
  end.

(** A verdict of the three-field shape of [MCQ_SCHEMA]. *)
Definition normal_verdict (v : pyval) : bool :=
  match v with
  | PDict items =>
      (List.length items =? 3)
      && match lookup (str "Q_no") items with
         | Some (PInt _) => true
         | _ => false
         end
      && match lookup (str "Option Status") items with
         | Some (PStr s) =>
             text_eqb s (str "OK") || text_eqb s (str "Faulty")
             || text_eqb s (str "Inconclusive")
         | _ => false
         end
      && match lookup (str "Issue Summary") items with
         | Some (PStr _) | Some PNone => true
         | _ => false
         end
  | _ => false
  end.

(** The answers of the client to the calls [n], [n+1], ... made with
    the given questions in order. *)
Fixpoint answers_from (n : nat) (qs : list question) : list pyval :=
  match qs with
  | [] => []
  | q :: qs' => answer n (full_text q) :: answers_from (S n) qs'
  end.

(** One call for each question, numbered from [n], each followed by
    the pause. *)
Fixpoint paced_calls (n : nat) (qs : list question) : list event :=
  match qs with
  | [] => []
  | q :: qs' => EvCall n (full_text q) :: EvSleep 5 :: paced_calls (S n) qs'
  end.

(** The calls alone. *)
Fixpoint calls_from (n : nat) (qs : list question) : list event :=
  match qs with
  | [] => []
  | q :: qs' => EvCall n (full_text q) :: calls_from (S n) qs'
  end.

(** Every call of the trace is followed at once by the pause of five. *)
Definition paced_after_every_call (tr : list event) : Prop :=
  forall pre n t post,
    tr = pre ++ EvCall n t :: post -> exists post', post = EvSleep 5 :: post'.

(** Every call is followed at once by the pause of five, except a call
    answered with the rate-limit signal, which is the last event. *)
Definition paced_unless_rate_limited (tr : list event) : Prop :=
  forall pre n t post,
    tr = pre ++ EvCall n t :: post ->
    if rate_limited (answer n t) then post = []
    else exists post', post = EvSleep 5 :: post'.

(** The events of the loop started with call number [n]. *)
Fixpoint loop_events (n : nat) (qs : list question) : list event :=
  match qs with
  | [] => []
  | q :: qs' =>
      EvCall n (full_text q)
      :: (if rate_limited (answer n (full_text q)) then []
          else EvSleep 5 :: loop_events (S n) qs')
  end.

(** The address the document is fetched from. *)
Definition export_url (doc_id : text) : text :=
  str "https://docs.google.com/document/d/" ++ doc_id ++ str "/export?format=txt".

(** *** Reference definitions for the further properties *)

(** A document id starts the text: [/d/] and then the longest run of id
    characters, which is not empty. *)
Definition id_here (s : text) : option text :=
  match s with
  | c1 :: c2 :: c3 :: r =>
      if ((c1 =? 47) && (c2 =? 100) && (c3 =? 47))%N then
        match takeWhile id_char r with
        | [] => None
        | c :: id => Some (c :: id)
        end
      else None
  | _ => None
  end.

(** The id at the first place of the text where one starts. *)
Fixpoint first_id (s : text) : option text :=
  match id_here s with
  | Some id => Some id
  | None =>
      match s with
      | [] => None
      | _ :: s' => first_id s'
      end
  end.

Definition is_get (e : event) : bool :=
  match e with EvGet _ => true | _ => false end.

(** The seconds slept in a trace. *)
Fixpoint total_sleep (tr : list event) : Z :=
  match tr with
  | [] => 0
  | EvSleep seconds :: tr' => seconds + total_sleep tr'
  | _ :: tr' => total_sleep tr'
  end.

(* ================================================================ *)
(** * Proofs *)
(* ================================================================ *)

(** No decimal digit is white space (Nd and the white-space code
    points are disjoint in every version of the Unicode tables). *)
Hypothesis decimal_not_space :
  forall c d, (128 <= c)%N -> unicode_decimal c = Some d -> is_space c = false.

(** The value of a decimal digit is one of 0 to 9. *)
Hypothesis decimal_value :
  forall c d, (128 <= c)%N -> unicode_decimal c = Some d -> (d <= 9)%N.

(** ** Lists *)

Lemma takeWhile_dropWhile (p : N -> bool) s : takeWhile p s ++ dropWhile p s = s.
Proof.
  induction s as [|c s IH]; simpl; auto.
  destruct (p c); simpl; [now rewrite IH | reflexivity].
Qed.

Lemma dropWhile_head (p : N -> bool) s c r : dropWhile p s = c :: r -> p c = false.
Proof.
  induction s as [|x s IH]; simpl; [discriminate|].
  destruct (p x) eqn:Hx; auto.
  intros H; injection H as -> _; exact Hx.
Qed.

Lemma takeWhile_all (p : N -> bool) s : forallb p (takeWhile p s) = true.
Proof.
  induction s as [|c s IH]; simpl; auto.
  destruct (p c) eqn:Hc; simpl; auto. now rewrite Hc.
Qed.

Lemma skipn_takeWhile (p : N -> bool) s :
  skipn (List.length (takeWhile p s)) s = dropWhile p s.
Proof.
  induction s as [|c s IH]; simpl; auto.
  destruct (p c); simpl; auto.
Qed.

Lemma dropWhile_app (p : N -> bool) l l' :
  dropWhile p (l ++ l') =
  match dropWhile p l with
  | [] => dropWhile p l'
  | x :: t => (x :: t) ++ l'
  end.
Proof.
  induction l as [|c l IH]; simpl; auto.
  destruct (p c); auto.
Qed.

Lemma dropWhile_all (p : N -> bool) l l' :
  forallb p l = true -> dropWhile p (l ++ l') = dropWhile p l'.
Proof.
  induction l as [|c l IH]; simpl; auto.
  intros H; apply andb_true_iff in H as [-> H]; auto.
Qed.

Lemma takeWhile_all_app (p : N -> bool) l l' :
  forallb p l = true -> takeWhile p (l ++ l') = l ++ takeWhile p l'.
Proof.
  induction l as [|c l IH]; simpl; auto.
  intros H; apply andb_true_iff in H as [-> H]. now rewrite IH.
Qed.

(** Within the run of [p] at the head of [s], a suffix starts with a
    character of [p] or is what is left after the run. *)
Lemma skipn_in_run (p : N -> bool) s n :
  n <= List.length (takeWhile p s) ->
  skipn n s = dropWhile p s \/ exists c r, skipn n s = c :: r /\ p c = true.
Proof.
  revert n; induction s as [|c s IH]; intros n Hn; simpl in *.
  - left. now destruct n.
  - destruct (p c) eqn:Hc; simpl in Hn.
    + destruct n as [|n]; simpl.
      * right. now exists c, s.
      * apply IH. lia.
    + assert (n = 0) by lia. subst. now left.
Qed.

(** ** The matcher on repetitions *)

(** A greedy repetition whose continuation accepts the longest run
    stops there. *)
Lemma star_greedy_max p k i s g r :
  k (i + List.length (takeWhile p s)) (dropWhile p s) g = Some r ->
  Re.star_greedy p k i s g = Some r.
Proof.
  revert i; induction s as [|c s IH]; intros i; simpl.
  - now rewrite Nat.add_0_r.
  - destruct (p c); simpl.
    + intros H. rewrite (IH (S i)); auto.
      rewrite <- H. f_equal. lia.
    + now rewrite Nat.add_0_r.
Qed.

(** It fails when the continuation refuses every length of the run. *)
Lemma star_greedy_none p k i s g :
  (forall n, n <= List.length (takeWhile p s) -> k (i + n) (skipn n s) g = None) ->
  Re.star_greedy p k i s g = None.
Proof.
  revert i; induction s as [|c s IH]; intros i H; simpl.
  - specialize (H 0 (Nat.le_0_l _)). now rewrite Nat.add_0_r in H.
  - assert (H0 : k i (c :: s) g = None).
    { specialize (H 0 (Nat.le_0_l _)). now rewrite Nat.add_0_r in H. }
    destruct (p c) eqn:Hc; auto.
    rewrite IH; auto.
    intros n Hn. specialize (H (S n)). simpl in H. rewrite Hc in H. simpl in H.
    replace (S i + n) with (i + S n) by lia. apply H. lia.
Qed.

(** A lazy repetition stops at the first length its continuation
    accepts. *)
Lemma star_lazy_first p k i s g n r :
  n <= List.length s ->
  forallb p (firstn n s) = true ->
  (forall j, j < n -> k (i + j) (skipn j s) g = None) ->
  k (i + n) (skipn n s) g = Some r ->
  Re.star_lazy p k i s g = Some r.
Proof.
  revert i s; induction n as [|n IH]; intros i s Hn Hp Hfail Hok.
  - simpl in Hok. rewrite Nat.add_0_r in Hok.
    destruct s; simpl; now rewrite Hok.
  - destruct s as [|c s]; simpl in Hn; [lia|].
    simpl in Hp. apply andb_true_iff in Hp as [Hc Hp].
    simpl. pose proof (Hfail 0 (Nat.lt_0_succ _)) as H0.
    simpl in H0. rewrite Nat.add_0_r in H0. rewrite H0, Hc.
    apply IH; auto; try lia.
    + intros j Hj. replace (S i + j) with (i + S j) by lia.
      apply (Hfail (S j)). lia.
    + replace (S i + n) with (i + S n) by lia. exact Hok.
Qed.

(** ** The character classes *)

Lemma digit_not_space c : is_digit c = true -> is_space c = false.
Proof.
  unfold is_digit, to_decimal.
  destruct (c <? 128)%N eqn:Hlt.
  - destruct ((48 <=? c) && (c <=? 57))%N eqn:Hd; [intros _|discriminate].
    apply andb_true_iff in Hd as [H1 H2].
    apply N.leb_le in H1. apply N.leb_le in H2.
    destruct (is_space c) eqn:Hs; auto. exfalso.
    unfold is_space in Hs.
    rewrite !orb_true_iff, !andb_true_iff, !N.leb_le, !N.eqb_eq in Hs. lia.
  - destruct (unicode_decimal c) eqn:Hu; [intros _|discriminate].
    apply N.ltb_ge in Hlt. eapply decimal_not_space; eauto.
Qed.

Lemma space_not_digit c : is_space c = true -> is_digit c = false.
Proof.
  intros Hs. destruct (is_digit c) eqn:Hd; auto.
  apply digit_not_space in Hd. congruence.
Qed.

Lemma lit_Q c : Re.lit Q c = (c =? Q)%N.
Proof. unfold Re.lit. apply N.eqb_sym. Qed.

Lemma space_not_Q c : is_space c = true -> (c =? Q)%N = false.
Proof.
  intros Hs. destruct (c =? Q)%N eqn:Hq; auto.
  apply N.eqb_eq in Hq. subst. discriminate.
Qed.

Lemma digit_not_Q c : is_digit c = true -> (c =? Q)%N = false.
Proof.
  intros Hs. destruct (c =? Q)%N eqn:Hq; auto.
  apply N.eqb_eq in Hq. subst. discriminate.
Qed.

(** ** The pattern of the segmenter *)

(** The marker inside the lookahead, [Q\s*\d+\s*]. *)
Lemma lookahead_marker_ok i s g :
  marker_at s = true ->
  exists e,
    Re.run (Re.Seq (Re.Chr (Re.lit Q))
              (Re.Seq (Re.Star true is_space)
                 (Re.Seq (Re.Plus true is_digit) (Re.Star true is_space))))
           (fun i' _ g' => Some (i', g')) i s g = Some (e, g).
Proof.
  destruct s as [|c s1]; [discriminate|].
  cbn [Re.run Re.star marker_at]. rewrite lit_Q.
  destruct (c =? Q)%N; [|discriminate]. cbn [andb].
  destruct (dropWhile is_space s1) as [|d t] eqn:Hd; [discriminate|].
  intros Hdig. eexists.
  apply star_greedy_max. rewrite Hd, Hdig.
  apply star_greedy_max. apply star_greedy_max. reflexivity.
Qed.

Lemma marker_fails (k : Re.cont) i s1 g :
  match dropWhile is_space s1 with d :: _ => is_digit d | [] => false end = false ->
  Re.star_greedy is_space
    (Re.run (Re.Plus true is_digit) k) i s1 g = None.
Proof.
  intros H. apply star_greedy_none. intros n Hn.
  destruct (skipn_in_run is_space s1 n Hn) as [Hk|(c & r & Hk & Hc)]; rewrite Hk.
  - destruct (dropWhile is_space s1) as [|d t]; cbn [Re.run]; auto. now rewrite H.
  - cbn [Re.run]. now rewrite (space_not_digit _ Hc).
Qed.

Lemma lookahead_marker_none i s g :
  marker_at s = false ->
  Re.run (Re.Seq (Re.Chr (Re.lit Q))
            (Re.Seq (Re.Star true is_space)
               (Re.Seq (Re.Plus true is_digit) (Re.Star true is_space))))
         (fun i' _ g' => Some (i', g')) i s g = None.
Proof.
  destruct s as [|c s1]; [reflexivity|].
  cbn [Re.run Re.star marker_at]. rewrite lit_Q.
  destruct (c =? Q)%N; cbn [andb]; auto.
  intros H. now apply marker_fails.
Qed.

(** The lookahead [(?=Q\s*\d+\s*|\Z)]. *)
Lemma lookahead_run (k : Re.cont) i s g :
  Re.run (Re.Ahead
            (Re.Alt
               (Re.Seq (Re.Chr (Re.lit Q))
                  (Re.Seq (Re.Star true is_space)
                     (Re.Seq (Re.Plus true is_digit) (Re.Star true is_space))))
               Re.EndZ)) k i s g
  = if at_boundary s then k i s g else None.
Proof.
  unfold at_boundary.
  cbn [Re.run]. destruct (marker_at s) eqn:Hm.
  - destruct (lookahead_marker_ok i s g Hm) as [e He].
    cbn [Re.run] in He. rewrite He. reflexivity.
  - pose proof (lookahead_marker_none i s g Hm) as Hn.
    cbn [Re.run] in Hn. rewrite Hn.
    destruct s; reflexivity.
Qed.

(** ** Boundaries *)

Lemma to_boundary_le s : to_boundary s <= List.length s.
Proof.
  induction s as [|c s IH]; [apply Nat.le_refl|].
  cbn [to_boundary List.length]. destruct (marker_at (c :: s)); lia.
Qed.

Lemma to_boundary_reached s : at_boundary (skipn (to_boundary s) s) = true.
Proof.
  induction s as [|c s IH]; [reflexivity|].
  cbn [to_boundary]. destruct (marker_at (c :: s)) eqn:Hm.
  - cbn [skipn]. unfold at_boundary. now rewrite Hm.
  - exact IH.
Qed.

Lemma to_boundary_before s j :
  j < to_boundary s -> at_boundary (skipn j s) = false.
Proof.
  revert j; induction s as [|c s IH]; intros j; cbn [to_boundary]; [lia|].
  destruct (marker_at (c :: s)) eqn:Hm; [lia|].
  destruct j as [|j]; intros Hj.
  - cbn [skipn]. unfold at_boundary. now rewrite Hm.
  - cbn [skipn]. apply IH. lia.
Qed.

Lemma to_boundary_run (p : N -> bool) s :
  (forall c, p c = true -> (c =? Q)%N = false) ->
  to_boundary s
  = List.length (takeWhile p s) + to_boundary (dropWhile p s).
Proof.
  intros Hp. induction s as [|c s IH]; [reflexivity|].
  cbn [takeWhile dropWhile]. destruct (p c) eqn:Hc; [|reflexivity].
  cbn [to_boundary marker_at List.length]. rewrite (Hp _ Hc). cbn [andb].
  rewrite IH. reflexivity.
Qed.

(** At a marker the pattern matches, with every repetition at its
    first choice: the match runs to the next boundary. *)
Lemma match_at_marker ma i s :
  marker_at s = true -> Re.match_at regex ma i s = Some (segment i s).
Proof.
  destruct s as [|c s1]; [discriminate|].
  cbn [marker_at]. intros H. apply andb_true_iff in H as [Hc H].
  destruct (dropWhile is_space s1) as [|d t] eqn:Hd; [discriminate|].
  unfold Re.match_at, regex.
  remember (Re.Ahead _) as la eqn:Hla.
  cbn [Re.run Re.star]. rewrite lit_Q, Hc.
  pose proof (to_boundary_run is_space s1 space_not_Q) as B1.
  rewrite Hd in B1.
  pose proof (to_boundary_run is_digit (d :: t) digit_not_Q) as B2.
  cbn [takeWhile dropWhile] in B2. rewrite H in B2. cbn [List.length] in B2.
  pose proof (to_boundary_run is_space (dropWhile is_digit t) space_not_Q) as B3.
  rewrite (star_greedy_max _ _ _ _ _ (Re.m_end (segment i (c :: s1)),
                                      Re.m_caps (segment i (c :: s1)))).
  { reflexivity. }
  rewrite Hd, H.
  apply star_greedy_max. apply star_greedy_max.
  apply star_lazy_first
    with (n := to_boundary (dropWhile is_space (dropWhile is_digit t))).
  - apply to_boundary_le.
  - apply forallb_forall. reflexivity.
  - intros j Hj. subst la. rewrite lookahead_run.
    now rewrite (to_boundary_before _ _ Hj).
  - subst la. rewrite lookahead_run, to_boundary_reached.
    cbn [segment Re.m_end Re.m_caps tl header_digits].
    rewrite Hd. cbn [takeWhile]. rewrite H. cbn [List.length].
    match goal with
    | |- (if _ && (?x =? i) then _ else _) = _ =>
        replace (x =? i) with false by (symmetry; apply Nat.eqb_neq; lia)
    end.
    rewrite andb_false_r.
    rewrite B1, B2, B3.
    match goal with
    | |- Some (?x, [(1, (i, ?x)); (2, (?a, ?b))])
         = Some (?y, [(1, (i, ?y)); (2, (?a', ?b'))]) =>
        assert (Hx : x = y) by lia; assert (Ha : a = a') by lia;
        assert (Hb : b = b') by lia; congruence
    end.
Qed.

(** Anywhere else every attempt fails, whatever the repetitions give back. *)
Lemma match_at_other ma i s :
  marker_at s = false -> Re.match_at regex ma i s = None.
Proof.
  destruct s as [|c s1]; [reflexivity|].
  unfold Re.match_at, regex.
  remember (Re.Ahead _) as la eqn:Hla.
  cbn [Re.run Re.star marker_at]. rewrite lit_Q.
  destruct (c =? Q)%N; cbn [andb]; [|reflexivity].
  intros H.
  match goal with
  | |- match Re.star_greedy _ ?k _ _ _ with _ => _ end = _ =>
      replace (Re.star_greedy is_space k (S i) s1 []) with (@None (nat * Re.caps));
      [reflexivity|]
  end.
  symmetry. apply star_greedy_none. intros n Hn.
  destruct (skipn_in_run is_space s1 n Hn) as [Hk|(x & r & Hk & Hx)]; rewrite Hk.
  - destruct (dropWhile is_space s1) as [|d t]; auto. now rewrite H.
  - now rewrite (space_not_digit _ Hx).
Qed.

(** ** Searching and iterating *)

Lemma search_from_regex ma i s :
  Re.search_from regex ma i s =
  match skipn (to_boundary s) s with
  | [] => None
  | _ :: _ => Some (segment (i + to_boundary s) (skipn (to_boundary s) s))
  end.
Proof.
  revert ma i; induction s as [|c s IH]; intros ma i.
  - cbn [Re.search_from]. now rewrite match_at_other.
  - cbn [Re.search_from to_boundary].
    destruct (marker_at (c :: s)) eqn:Hm.
    + rewrite match_at_marker by exact Hm.
      cbn [skipn]. now rewrite Nat.add_0_r.
    + rewrite match_at_other by exact Hm.
      rewrite IH. cbn [skipn].
      now replace (S i + to_boundary s) with (i + S (to_boundary s)) by lia.
Qed.

Lemma segments_skip i s :
  segments i s = segments (i + to_boundary s) (skipn (to_boundary s) s).
Proof.
  revert i; induction s as [|c s IH]; intros i.
  - reflexivity.
  - cbn [to_boundary]. destruct (marker_at (c :: s)) eqn:Hm.
    + cbn [skipn]. now rewrite Nat.add_0_r.
    + cbn [segments skipn]. rewrite Hm. cbn [app]. rewrite IH.
      now replace (S i + to_boundary s) with (i + S (to_boundary s)) by lia.
Qed.

Lemma boundary_cons c s : at_boundary (c :: s) = marker_at (c :: s).
Proof. unfold at_boundary. apply orb_false_r. Qed.

(** The scanner finds one match for every marker; the iteration bound
    is never what ends it. *)
Lemma scan_regex fuel ma i s :
  List.length s < fuel -> Re.scan fuel regex ma i s = segments i s.
Proof.
  revert ma i s; induction fuel as [|fuel IH]; intros ma i s Hlen; [lia|].
  cbn [Re.scan]. rewrite search_from_regex.
  rewrite (segments_skip i s).
  pose proof (to_boundary_reached s) as Hb.
  pose proof (to_boundary_le s) as Hle.
  assert (Hsk : List.length (skipn (to_boundary s) s) = List.length s - to_boundary s)
    by apply length_skipn.
  destruct (skipn (to_boundary s) s) as [|c s1] eqn:Hs; [reflexivity|].
  rewrite boundary_cons in Hb.
  cbn [segments]. rewrite Hb. cbn [app segment Re.m_end Re.m_start tl].
  f_equal.
  replace (i + to_boundary s + 1 + to_boundary s1 =? i + to_boundary s)
    with false by (symmetry; apply Nat.eqb_neq; lia).
  replace (i + to_boundary s + 1 + to_boundary s1 - i)
    with (S (to_boundary s1) + to_boundary s) by lia.
  rewrite <- skipn_skipn, Hs. cbn [skipn].
  cbn [List.length] in Hsk.
  pose proof (to_boundary_le s1).
  rewrite IH.
  - rewrite (segments_skip (S (i + to_boundary s)) s1).
    f_equal. lia.
  - rewrite length_skipn. lia.
Qed.

Theorem finditer_regex doc_text :
  Re.finditer regex doc_text = segments 0 doc_text.
Proof. unfold Re.finditer. apply scan_regex. lia. Qed.

(** ** Occurrences of the marker *)

Lemma space_run_fails (k : Re.cont) i s1 g :
  (forall j s g',
     match s with d :: _ => is_digit d | [] => false end = false ->
     k j s g' = None) ->
  match dropWhile is_space s1 with d :: _ => is_digit d | [] => false end = false ->
  Re.star_greedy is_space k i s1 g = None.
Proof.
  intros Hk H. apply star_greedy_none. intros n Hn. apply Hk.
  destruct (skipn_in_run is_space s1 n Hn) as [Hs|(c & r & Hs & Hc)]; rewrite Hs;
    [exact H|now apply space_not_digit].
Qed.

Lemma marker_match ma i s :
  Re.match_at marker_regex ma i s =
  if marker_at s
  then Some {| Re.m_start := i;
               Re.m_end := i + 1 + List.length (takeWhile is_space (tl s))
                           + List.length (header_digits s);
               Re.m_caps := [] |}
  else None.
Proof.
  destruct s as [|c s1]; [reflexivity|].
  unfold Re.match_at, marker_regex. cbn [Re.run Re.star marker_at]. rewrite lit_Q.
  destruct (c =? Q)%N; cbn [andb]; [|reflexivity].
  destruct (match dropWhile is_space s1 with
            | [] => false
            | d :: _ => is_digit d
            end) eqn:H.
  - destruct (dropWhile is_space s1) as [|d t] eqn:Hd; [discriminate|].
    rewrite (star_greedy_max _ _ _ _ _
               (i + 1 + List.length (takeWhile is_space s1)
                + List.length (takeWhile is_digit (d :: t)), [])).
    + cbn [tl header_digits]. now rewrite Hd.
    + rewrite Hd, H. apply star_greedy_max.
      cbn [takeWhile]. rewrite H. cbn [List.length].
      match goal with
      | |- (if _ && (?x =? i) then _ else _) = _ =>
          replace (x =? i) with false by (symmetry; apply Nat.eqb_neq; lia)
      end.
      rewrite andb_false_r. f_equal. f_equal. lia.
  - match goal with
    | |- match ?x with _ => _ end = _ =>
        replace x with (@None (nat * Re.caps)); [reflexivity|]
    end.
    symmetry. apply space_run_fails; [|exact H].
    intros j [|d t] g' Hd; [reflexivity|]. now rewrite Hd.
Qed.

Lemma marker_search ma i s :
  Re.search_from marker_regex ma i s =
  match skipn (to_boundary s) s with
  | [] => None
  | _ :: _ =>
      Re.match_at marker_regex false (i + to_boundary s) (skipn (to_boundary s) s)
  end.
Proof.
  revert ma i; induction s as [|c s IH]; intros ma i.
  - reflexivity.
  - cbn [Re.search_from to_boundary]. rewrite marker_match.
    destruct (marker_at (c :: s)) eqn:Hm.
    + cbn [skipn]. rewrite Nat.add_0_r, marker_match, Hm. reflexivity.
    + rewrite IH. cbn [skipn].
      now replace (S i + to_boundary s) with (i + S (to_boundary s)) by lia.
Qed.

Lemma count_markers_skip s : count_markers s = count_markers (skipn (to_boundary s) s).
Proof.
  induction s as [|c s IH]; [reflexivity|].
  cbn [to_boundary]. destruct (marker_at (c :: s)) eqn:Hm; [reflexivity|].
  cbn [count_markers skipn]. now rewrite Hm.
Qed.

Lemma count_markers_run (p : N -> bool) s :
  (forall c, p c = true -> (c =? Q)%N = false) ->
  count_markers s = count_markers (dropWhile p s).
Proof.
  intros Hp. induction s as [|c s IH]; [reflexivity|].
  cbn [dropWhile]. destruct (p c) eqn:Hc; [|reflexivity].
  cbn [count_markers marker_at]. now rewrite (Hp _ Hc).
Qed.

Lemma marker_scan fuel : forall ma i s,
  List.length s < fuel ->
  List.length (Re.scan fuel marker_regex ma i s) = count_markers s.
Proof.
  induction fuel as [|fuel IH]; intros ma i s Hlen; [lia|].
  cbn [Re.scan]. rewrite marker_search, (count_markers_skip s).
  pose proof (to_boundary_reached s) as Hb.
  pose proof (to_boundary_le s) as Hle.
  assert (Hsk : List.length (skipn (to_boundary s) s) = List.length s - to_boundary s)
    by apply length_skipn.
  destruct (skipn (to_boundary s) s) as [|c s1] eqn:Hs; [reflexivity|].
  rewrite boundary_cons in Hb. rewrite marker_match, Hb.
  cbn [Re.m_end Re.m_start List.length tl header_digits count_markers].
  rewrite Hb. cbn [Nat.add]. f_equal.
  cbn [List.length] in Hsk.
  set (n1 := List.length (takeWhile is_space s1)).
  set (n2 := List.length (takeWhile is_digit (dropWhile is_space s1))).
  replace (i + to_boundary s + 1 + n1 + n2 - i)
    with (n2 + (n1 + (1 + to_boundary s))) by lia.
  rewrite <- !skipn_skipn, Hs. cbn [skipn]. subst n1 n2.
  rewrite !skipn_takeWhile.
  rewrite IH.
  - rewrite (count_markers_run is_space s1 space_not_Q).
    now rewrite (count_markers_run is_digit (dropWhile is_space s1) digit_not_Q).
  - pose proof (takeWhile_dropWhile is_space s1) as E1.
    pose proof (takeWhile_dropWhile is_digit (dropWhile is_space s1)) as E2.
    apply (f_equal (@List.length N)) in E1, E2.
    rewrite length_app in E1, E2. lia.
Qed.

(** The segmenter's count of markers is the number of matches of the
    marker pattern in the text. *)
Lemma marker_occurrences doc_text :
  List.length (Re.finditer marker_regex doc_text) = count_markers doc_text.
Proof. unfold Re.finditer. apply marker_scan. lia. Qed.

(** ** Stripping *)

Lemma rstrip_app pre c r :
  is_space c = false -> rstrip (pre ++ c :: r) = pre ++ c :: rstrip r.
Proof.
  intros Hc. unfold rstrip.
  replace (pre ++ c :: r) with ((pre ++ [c]) ++ r) by now rewrite <- app_assoc.
  rewrite rev_app_distr, dropWhile_app.
  destruct (dropWhile is_space (rev r)) as [|x t] eqn:Hd.
  - rewrite rev_app_distr. cbn [rev app dropWhile]. rewrite Hc.
    cbn [rev]. now rewrite rev_involutive.
  - rewrite rev_app_distr, rev_involutive. now rewrite <- app_assoc.
Qed.

Lemma rstrip_cons c r : is_space c = false -> rstrip (c :: r) = c :: rstrip r.
Proof. apply (rstrip_app []). Qed.

Lemma strip_cons c r : is_space c = false -> strip (c :: r) = c :: rstrip r.
Proof.
  intros Hc. unfold strip, lstrip. rewrite rstrip_cons by exact Hc.
  cbn [dropWhile]. now rewrite Hc.
Qed.

(** What [rstrip] keeps is a prefix. *)
Lemma rstrip_prefix r : exists t, r = rstrip r ++ t.
Proof.
  exists (rev (takeWhile is_space (rev r))). unfold rstrip.
  rewrite <- rev_app_distr, takeWhile_dropWhile. now rewrite rev_involutive.
Qed.

Lemma strip_digits l : forallb is_digit l = true -> strip l = l.
Proof.
  destruct l as [|a l0]; [reflexivity|]. intros H.
  destruct (@exists_last _ (a :: l0)) as (l1 & x & El); [discriminate|].
  rewrite El in *. rewrite forallb_app in H.
  apply andb_true_iff in H as [H1 H2]. cbn [forallb] in H2.
  rewrite andb_true_r in H2. apply digit_not_space in H2.
  unfold strip. rewrite rstrip_app by exact H2.
  unfold rstrip, lstrip. cbn [rev dropWhile].
  destruct l1 as [|y l2]; cbn [app dropWhile].
  - now rewrite H2.
  - cbn [forallb] in H1. apply andb_true_iff in H1 as [Hy _].
    now rewrite (digit_not_space _ Hy).
Qed.

Lemma firstn_takeWhile (p : N -> bool) l :
  firstn (List.length (takeWhile p l)) l = takeWhile p l.
Proof.
  induction l as [|c l IH]; [reflexivity|].
  cbn [takeWhile]. destruct (p c); [|reflexivity].
  cbn [List.length firstn]. now rewrite IH.
Qed.

(** ** The shape of a block *)

(** The text of the block at a marker: the Q, the white space, the
    digits, and what follows up to the boundary without its trailing
    white space. *)
Lemma block_text c s1 :
  marker_at (c :: s1) = true ->
  let ws := takeWhile is_space s1 in
  let ds := takeWhile is_digit (dropWhile is_space s1) in
  let r3 := dropWhile is_digit (dropWhile is_space s1) in
  c = Q /\ ds <> [] /\
  full_text (block_at (c :: s1))
  = c :: ws ++ ds ++ rstrip (firstn (to_boundary r3) r3).
Proof.
  intros H ws ds r3. cbn [marker_at] in H.
  apply andb_true_iff in H as [Hc H]. apply N.eqb_eq in Hc.
  assert (Hds : ds <> []).
  { subst ds. destruct (dropWhile is_space s1) as [|d t]; [discriminate|].
    cbn [takeWhile]. now rewrite H. }
  split; [exact Hc|]. split; [exact Hds|].
  cbn [block_at full_text tl].
  change (1 + to_boundary s1) with (S (to_boundary s1)). cbn [firstn].
  rewrite strip_cons by (subst c; reflexivity). f_equal.
  rewrite (to_boundary_run is_space s1 space_not_Q).
  rewrite (to_boundary_run is_digit (dropWhile is_space s1) digit_not_Q).
  fold ws ds r3.
  assert (Es : s1 = ws ++ ds ++ r3).
  { subst ws ds r3. now rewrite !takeWhile_dropWhile. }
  rewrite Es at 1.
  rewrite firstn_app_2, firstn_app_2.
  destruct (exists_last Hds) as (ds0 & x & Eds).
  assert (Hx : is_space x = false).
  { apply digit_not_space.
    pose proof (takeWhile_all is_digit (dropWhile is_space s1)) as Hall.
    fold ds in Hall. rewrite Eds, forallb_app in Hall.
    apply andb_true_iff in Hall as [_ Hall]. cbn [forallb] in Hall.
    now rewrite andb_true_r in Hall. }
  rewrite Eds.
  replace (ws ++ (ds0 ++ [x]) ++ firstn (to_boundary r3) r3)
    with ((ws ++ ds0) ++ x :: firstn (to_boundary r3) r3)
    by (now rewrite <- !app_assoc).
  rewrite rstrip_app by exact Hx.
  now rewrite <- !app_assoc.
Qed.

(** ** The segmenter *)

Lemma text_eqb_nil s : text_eqb s [] = match s with [] => true | _ :: _ => false end.
Proof. now destruct s. Qed.


Lemma collect_questions doc_text ms acc :
  fold_left
    (fun parsed_questions m =>
       let full_text := strip (group_text doc_text m 1) in
       let q_num := strip (group_text doc_text m 2) in
       if negb (text_eqb full_text [])
       then parsed_questions ++ [{| q_num_str := q_num; full_text := full_text |}]
       else parsed_questions) ms acc
  = acc ++ map (to_question doc_text)
             (filter (fun m => negb (text_eqb (full_text (to_question doc_text m)) []))
                     ms).
Proof.
  revert acc; induction ms as [|m ms IH]; intros acc; cbn [fold_left filter map].
  - now rewrite app_nil_r.
  - rewrite IH. cbn [to_question full_text].
    destruct (negb (text_eqb (strip (group_text doc_text m 1)) [])); auto.
    cbn [map]. now rewrite <- app_assoc.
Qed.

Lemma skipn_tail (l : text) i c s' : skipn i l = c :: s' -> skipn (S i) l = s'.
Proof.
  revert l; induction i as [|i IH]; intros [|x l] H; try discriminate.
  - cbn in H. now injection H.
  - cbn [skipn] in *. now apply IH.
Qed.

(** The match at a marker gives the block at that marker. *)
Lemma to_question_segment doc_text i s :
  skipn i doc_text = s -> marker_at s = true ->
  to_question doc_text (segment i s) = block_at s.
Proof.
  intros Hs Hm. destruct s as [|c s1]; [discriminate|].
  unfold to_question, block_at, group_text, Re.group, Re.slice.
  cbn [segment Re.m_caps Re.mark Nat.eqb tl].
  f_equal.
  - replace (i + 1 + List.length (takeWhile is_space s1)
             + List.length (header_digits (c :: s1))
             - (i + 1 + List.length (takeWhile is_space s1)))
      with (List.length (header_digits (c :: s1))) by lia.
    replace (i + 1 + List.length (takeWhile is_space s1))
      with (S (List.length (takeWhile is_space s1)) + i) by lia.
    rewrite <- skipn_skipn, Hs. cbn [skipn header_digits].
    rewrite skipn_takeWhile, firstn_takeWhile.
    apply strip_digits, takeWhile_all.
  - replace (i + 1 + to_boundary s1 - i) with (1 + to_boundary s1) by lia.
    now rewrite Hs.
Qed.

Lemma block_nonempty s : marker_at s = true -> full_text (block_at s) <> [].
Proof.
  destruct s as [|c s1]; [discriminate|]. intros Hm.
  destruct (block_text c s1 Hm) as (_ & _ & ->). discriminate.
Qed.

Lemma questions_of_segments doc_text i s :
  skipn i doc_text = s ->
  map (to_question doc_text) (segments i s) = blocks s.
Proof.
  revert i; induction s as [|c s IH]; intros i Hs; [reflexivity|].
  cbn [segments blocks]. rewrite map_app. f_equal.
  - destruct (marker_at (c :: s)) eqn:Hm; [|reflexivity].
    cbn [map]. now rewrite (to_question_segment doc_text i (c :: s) Hs Hm).
  - apply IH. eapply skipn_tail; eauto.
Qed.

(** No match is dropped by the test [if full_text:]. *)
Lemma segments_all_kept doc_text i s :
  skipn i doc_text = s ->
  filter (fun m => negb (text_eqb (full_text (to_question doc_text m)) []))
         (segments i s)
  = segments i s.
Proof.
  revert i; induction s as [|c s IH]; intros i Hs; [reflexivity|].
  cbn [segments]. rewrite filter_app. f_equal.
  - destruct (marker_at (c :: s)) eqn:Hm; [|reflexivity].
    cbn [filter]. rewrite (to_question_segment doc_text i (c :: s) Hs Hm).
    rewrite text_eqb_nil.
    pose proof (block_nonempty (c :: s) Hm) as Hne.
    destruct (full_text (block_at (c :: s))); [congruence|reflexivity].
  - apply IH. eapply skipn_tail; eauto.
Qed.

(** The segmenter keeps one question for every match of the pattern. *)
Lemma parse_mcqs_matches doc_text :
  parse_mcqs_from_text doc_text
  = map (to_question doc_text) (Re.finditer regex doc_text).
Proof.
  unfold parse_mcqs_from_text. rewrite collect_questions, finditer_regex.
  cbn [app]. now rewrite segments_all_kept.
Qed.

(** It computes one block for each marker of the text. *)
Lemma parse_mcqs_blocks doc_text : parse_mcqs_from_text doc_text = blocks doc_text.
Proof.
  rewrite parse_mcqs_matches, finditer_regex. now apply questions_of_segments.
Qed.

Lemma segments_groups_set doc_text i s m :
  In m (segments i s) ->
  Re.group doc_text m 1 <> None /\ Re.group doc_text m 2 <> None.
Proof.
  revert i; induction s as [|c s IH]; intros i; cbn [segments]; [intros []|].
  intros H. apply in_app_or in H as [H|H]; [|eauto].
  destruct (marker_at (c :: s)); [|destruct H].
  destruct H as [<-|[]]. unfold Re.group. cbn. split; discriminate.
Qed.

(** Both groups of the pattern take part in every match. *)
Lemma regex_groups_set doc_text m :
  In m (Re.finditer regex doc_text) ->
  Re.group doc_text m 1 <> None /\ Re.group doc_text m 2 <> None.
Proof. rewrite finditer_regex. apply segments_groups_set. Qed.

(** ** Properties of the blocks *)

Lemma blocks_length s : List.length (blocks s) = count_markers s.
Proof.
  induction s as [|c s IH]; [reflexivity|].
  cbn [blocks count_markers]. rewrite length_app, IH.
  now destruct (marker_at (c :: s)).
Qed.

Lemma in_blocks b s :
  In b (blocks s) -> exists n, marker_at (skipn n s) = true /\ b = block_at (skipn n s).
Proof.
  induction s as [|c s IH]; [intros []|].
  cbn [blocks]. intros H. apply in_app_or in H as [H|H].
  - destruct (marker_at (c :: s)) eqn:Hm; [|destruct H].
    destruct H as [<-|[]]. now exists 0.
  - destruct (IH H) as (n & Hn & ->). now exists (S n).
Qed.

(** What follows the digits of a header does not start with a digit,
    also after the trailing white space is taken off. *)
Lemma takeWhile_rstrip_rest (p : N -> bool) l n :
  takeWhile p (rstrip (firstn n (dropWhile p l))) = [].
Proof.
  destruct (rstrip_prefix (firstn n (dropWhile p l))) as [t Ht].
  destruct (rstrip (firstn n (dropWhile p l))) as [|x r] eqn:Hr; [reflexivity|].
  cbn [takeWhile].
  destruct (dropWhile p l) as [|y l'] eqn:Hd.
  - now rewrite firstn_nil in Ht.
  - destruct n as [|n]; [discriminate|]. cbn [firstn app] in Ht.
    injection Ht as -> _. now rewrite (dropWhile_head p l _ _ Hd).
Qed.

(** The header of a block: Q, white space, and the digits that are
    its label. *)
Lemma block_header s :
  marker_at s = true ->
  exists r,
    full_text (block_at s) = Q :: r
    /\ q_num_str (block_at s) = takeWhile is_digit (dropWhile is_space r)
    /\ q_num_str (block_at s) <> []
    /\ forallb is_digit (q_num_str (block_at s)) = true.
Proof.
  destruct s as [|c s1]; [discriminate|]. intros Hm.
  destruct (block_text c s1 Hm) as (-> & Hds & Ht).
  eexists. split; [exact Ht|].
  cbn [block_at q_num_str header_digits].
  split; [|split; [exact Hds|apply takeWhile_all]].
  rewrite dropWhile_all by apply takeWhile_all.
  assert (Hall := takeWhile_all is_digit (dropWhile is_space s1)).
  destruct (takeWhile is_digit (dropWhile is_space s1)) as [|d ds] eqn:Eds;
    [congruence|].
  rewrite <- Eds in *. clear Hds.
  assert (Hd : is_space d = false).
  { apply digit_not_space. rewrite Eds in Hall. cbn [forallb] in Hall.
    now apply andb_true_iff in Hall as [-> _]. }
  rewrite Eds at 2. cbn [app dropWhile]. rewrite Hd.
  change (d :: ds ++ ?x) with ((d :: ds) ++ x). rewrite <- Eds.
  rewrite takeWhile_all_app by exact Hall.
  now rewrite takeWhile_rstrip_rest, app_nil_r.
Qed.

Lemma block_marker s :
  marker_at s = true -> marker_at (full_text (block_at s)) = true.
Proof.
  intros Hm. destruct (block_header s Hm) as (r & -> & Hq & Hne & Hall).
  cbn [marker_at]. rewrite N.eqb_refl. cbn [andb].
  rewrite Hq in Hne, Hall.
  destruct (dropWhile is_space r) as [|d t]; [now cbn in Hne|].
  cbn [takeWhile] in Hne. now destruct (is_digit d).
Qed.

(** ** Properties of the spans *)

Lemma to_boundary_at s : at_boundary s = true -> to_boundary s = 0.
Proof.
  destruct s as [|c s]; [reflexivity|].
  rewrite boundary_cons. cbn [to_boundary]. now intros ->.
Qed.

Lemma segments_tile n : forall s i,
  List.length s <= n ->
  tiles (segments i s) (i + to_boundary s) (i + List.length s).
Proof.
  induction n as [|n IH]; intros [|c s] i Hlen; cbn [List.length] in *;
    try reflexivity; try lia.
  cbn [segments to_boundary]. destruct (marker_at (c :: s)) eqn:Hm; cbn [app].
  - cbn [tiles segment Re.m_start Re.m_end tl].
    split; [lia|]. split; [lia|].
    rewrite (segments_skip (S i) s).
    pose proof (to_boundary_le s) as Hle.
    pose proof (IH (skipn (to_boundary s) s) (S i + to_boundary s)) as Ht.
    rewrite length_skipn in Ht.
    rewrite (to_boundary_at _ (to_boundary_reached s)) in Ht.
    replace (i + 1 + to_boundary s) with (S i + to_boundary s + 0) by lia.
    replace (i + S (List.length s))
      with (S i + to_boundary s + (List.length s - to_boundary s)) by lia.
    apply Ht. lia.
  - replace (i + S (to_boundary s)) with (S i + to_boundary s) by lia.
    replace (i + S (List.length s)) with (S i + List.length s) by lia.
    apply IH. lia.
Qed.

Lemma segments_spans doc_text i s :
  skipn i doc_text = s -> Forall (span_ok doc_text) (segments i s).
Proof.
  revert i; induction s as [|c s IH]; intros i Hs; [constructor|].
  cbn [segments]. apply Forall_app. split.
  - destruct (marker_at (c :: s)) eqn:Hm; [|constructor].
    constructor; [|constructor].
    unfold span_ok, Re.group. cbn [segment Re.m_start Re.m_end Re.m_caps Re.mark Nat.eqb tl].
    split; [reflexivity|]. split; [now rewrite Hs|].
    assert (Hsk : forall k, skipn (i + 1 + k) doc_text = skipn k s).
    { intros k. replace (i + 1 + k) with (k + S i) by lia.
      rewrite <- skipn_skipn. now rewrite (skipn_tail _ _ _ _ Hs). }
    split.
    + rewrite Hsk. apply to_boundary_reached.
    + intros p Hp. replace p with (i + 1 + (p - i - 1)) by lia.
      rewrite Hsk.
      assert (Hb : at_boundary (skipn (p - i - 1) s) = false)
        by (apply to_boundary_before; lia).
      unfold at_boundary in Hb. now apply orb_false_iff in Hb as [-> _].
  - apply IH. eapply skipn_tail; eauto.
Qed.

(** ** The loop of the handler *)

Lemma calls_made_app a b : calls_made (a ++ b) = calls_made a + calls_made b.
Proof. unfold calls_made. now rewrite filter_app, length_app. Qed.

Lemma run_mcq_audit_gemini_answer t tr :
  run_mcq_audit_gemini t tr
  = (Ok (answer (S (calls_made tr)) t), tr ++ [EvCall (S (calls_made tr)) t]).
Proof.
  unfold run_mcq_audit_gemini, answer.
  destruct (generate E (S (calls_made tr)) t) as [v|e]; [reflexivity|].
  now destruct (contains (str "429") e).
Qed.

(** How the client reads what the model service did. *)
Lemma answer_loaded n t v : generate E n t = Loaded v -> answer n t = v.
Proof. unfold answer. now intros ->. Qed.

Lemma answer_rate_limit n t e :
  generate E n t = Failed e -> contains (str "429") e = true ->
  answer n t = PStr RATE_LIMIT_ERROR.
Proof. unfold answer. now intros -> ->. Qed.


(** One turn of the loop. *)
Lemma audit_loop_cons q rest acc tr :
  audit_loop (q :: rest) acc tr =
  let n := S (calls_made tr) in
  let v := answer n (full_text q) in
  let tr1 := tr ++ [EvCall n (full_text q)] in
  if rate_limited v then
    match py_int (q_num_str q) with
    | Some z =>
        (Ok (acc ++ [inconclusive z (str "Failed: API Rate Limit hit.")]), tr1)
    | None => (Raise ValueError, tr1)
    end
  else if truthy v then
    audit_loop rest (acc ++ [v]) (tr1 ++ [EvSleep 5])
  else
    match py_int (q_num_str q) with
    | Some z =>
        audit_loop rest
          (acc ++ [inconclusive z (str "Failed to audit (API or JSON error)")])
          (tr1 ++ [EvSleep 5])
    | None => (Raise ValueError, tr1)
    end.
Proof.
  cbn [audit_loop]. unfold bind at 1. rewrite run_mcq_audit_gemini_answer.
  cbv zeta. unfold rate_limited.
  destruct (eq_str (answer (S (calls_made tr)) (full_text q)) RATE_LIMIT_ERROR).
  - unfold bind, int_of_label, ret, raise.
    now destruct (py_int (q_num_str q)).
  - destruct (truthy (answer (S (calls_made tr)) (full_text q))).
    + reflexivity.
    + unfold bind at 1 2, int_of_label, ret, raise.
      now destruct (py_int (q_num_str q)).
Qed.

Lemma calls_made_turn tr n t :
  calls_made ((tr ++ [EvCall n t]) ++ [EvSleep 5]) = S (calls_made tr).
Proof. rewrite !calls_made_app. cbn. lia. Qed.

Lemma normal_verdict_kept v :
  normal_verdict v = true -> rate_limited v = false /\ truthy v = true.
Proof.
  destruct v; try discriminate. cbn [normal_verdict].
  destruct items; [discriminate|]. now split.
Qed.

(** While the client answers with objects that are kept as they are,
    the loop appends them and pauses after each call. *)
Lemma loop_kept_prefix qs1 : forall qs2 acc tr,
  (forall k q, nth_error qs1 k = Some q ->
     normal_verdict (answer (S (calls_made tr) + k) (full_text q)) = true) ->
  audit_loop (qs1 ++ qs2) acc tr
  = audit_loop qs2 (acc ++ answers_from (S (calls_made tr)) qs1)
               (tr ++ paced_calls (S (calls_made tr)) qs1).
Proof.
  induction qs1 as [|q qs1 IH]; intros qs2 acc tr H.
  - cbn [app answers_from paced_calls]. now rewrite !app_nil_r.
  - cbn [app]. rewrite audit_loop_cons. cbv zeta.
    pose proof (H 0 q eq_refl) as H0. rewrite Nat.add_0_r in H0.
    apply normal_verdict_kept in H0 as [H1 H2]. rewrite H1, H2.
    rewrite IH.
    + rewrite calls_made_turn. cbn [answers_from paced_calls].
      now rewrite <- !app_assoc.
    + intros k q' Hk. rewrite calls_made_turn.
      replace (S (S (calls_made tr)) + k) with (S (calls_made tr) + S k) by lia.
      now apply H.
Qed.

Lemma answers_from_length n qs : List.length (answers_from n qs) = List.length qs.
Proof. revert n; induction qs as [|q qs IH]; intros n; cbn; auto. Qed.


Lemma calls_of_paced n qs : filter is_call (paced_calls n qs) = calls_from n qs.
Proof. revert n; induction qs as [|q qs IH]; intros n; cbn; [|rewrite IH]; auto. Qed.


(** The trace of the loop when every label it needs can be converted. *)
Lemma loop_trace qs : forall acc tr,
  Forall (fun q => py_int (q_num_str q) <> None) qs ->
  snd (audit_loop qs acc tr) = tr ++ loop_events (S (calls_made tr)) qs.
Proof.
  induction qs as [|q qs IH]; intros acc tr Hl.
  - cbn. now rewrite app_nil_r.
  - inversion Hl as [|? ? Hq Hqs]; subst.
    rewrite audit_loop_cons. cbv zeta. cbn [loop_events].
    destruct (py_int (q_num_str q)) as [z|] eqn:Hz; [|congruence].
    destruct (rate_limited (answer (S (calls_made tr)) (full_text q))); [reflexivity|].
    destruct (truthy (answer (S (calls_made tr)) (full_text q)));
      rewrite IH by exact Hqs; rewrite calls_made_turn;
      now rewrite <- !app_assoc.
Qed.

Lemma loop_events_paced qs : forall n, paced_unless_rate_limited (loop_events n qs).
Proof.
  induction qs as [|q qs IH]; intros n pre m t post Heq.
  - now destruct pre.
  - cbn [loop_events] in Heq. destruct pre as [|e pre]; cbn [app] in Heq.
    + injection Heq as <- <- <-.
      destruct (rate_limited (answer n (full_text q))); eauto.
    + injection Heq as <- Heq.
      destruct (rate_limited (answer n (full_text q))).
      * now destruct pre.
      * destruct pre as [|e' pre]; cbn [app] in Heq; [discriminate|].
        injection Heq as <- Heq. exact (IH (S n) pre m t post Heq).
Qed.

(** ** Converting a label to an integer *)

Lemma digit_not_int_space c : is_digit c = true -> int_space c = false.
Proof.
  intros Hd. unfold int_space. destruct (c <? 128)%N eqn:Hlt.
  - unfold is_digit, to_decimal in Hd. rewrite Hlt in Hd.
    destruct ((48 <=? c) && (c <=? 57))%N eqn:H; [|discriminate].
    apply andb_true_iff in H as [H1 H2].
    apply N.leb_le in H1. apply N.leb_le in H2.
    destruct (((9 <=? c) && (c <=? 13)) || (c =? 32))%N eqn:Hs; auto. exfalso.
    rewrite !orb_true_iff, !andb_true_iff, !N.leb_le, !N.eqb_eq in Hs. lia.
  - now apply digit_not_space.
Qed.

Lemma digit_not_sign c :
  is_digit c = true -> (c =? 45)%N = false /\ (c =? 43)%N = false.
Proof.
  intros Hd. split; apply N.eqb_neq; intros ->; discriminate.
Qed.

Lemma int_digits_all l : forall acc after,
  forallb is_digit l = true -> l <> [] \/ after = true ->
  exists z, int_digits acc after l = Some z.
Proof.
  induction l as [|c l IH]; intros acc after Hall Hne.
  - destruct Hne as [Hne| ->]; [congruence|]. cbn. eauto.
  - cbn [forallb] in Hall. apply andb_true_iff in Hall as [Hc Hall].
    cbn [int_digits]. unfold is_digit in Hc.
    destruct (to_decimal c) as [d|]; [|discriminate].
    apply IH; auto.
Qed.

(** Every non-empty string of decimal digits denotes a number. *)
Lemma int_literal_digits l :
  l <> [] -> forallb is_digit l = true -> exists z, int_literal l = Some z.
Proof.
  intros Hne Hall. unfold int_literal.
  assert (Hs : rev (dropWhile int_space (rev (dropWhile int_space l))) = l).
  { destruct l as [|a l0]; [congruence|].
    pose proof Hall as Ha. cbn [forallb] in Ha.
    apply andb_true_iff in Ha as [Ha _].
    cbn [dropWhile]. rewrite (digit_not_int_space _ Ha).
    destruct (@exists_last _ (a :: l0)) as (l1 & x & El); [discriminate|].
    rewrite El in *. rewrite forallb_app in Hall.
    apply andb_true_iff in Hall as [_ Hx]. cbn [forallb] in Hx.
    rewrite andb_true_r in Hx.
    rewrite rev_app_distr. cbn [rev app dropWhile].
    rewrite (digit_not_int_space _ Hx). cbn [rev].
    now rewrite rev_involutive. }
  rewrite Hs. destruct l as [|a l0]; [congruence|].
  pose proof Hall as Ha. cbn [forallb] in Ha.
  apply andb_true_iff in Ha as [Ha _].
  destruct (digit_not_sign _ Ha) as [-> ->].
  apply int_digits_all; auto.
Qed.

Lemma filter_all {A} (p : A -> bool) l : forallb p l = true -> filter p l = l.
Proof.
  induction l as [|a l IH]; cbn [forallb filter]; [reflexivity|].
  intros H. apply andb_true_iff in H as [-> H]. now rewrite IH.
Qed.

(** [int] accepts a non-empty string of decimal digits exactly when it
    is not longer than the limit. *)
Lemma py_int_digits l :
  l <> [] -> forallb is_digit l = true ->
  (exists z, py_int l = Some z) <-> List.length l <= int_max_str_digits.
Proof.
  intros Hne Hall. unfold py_int.
  rewrite (filter_all _ _ Hall).
  destruct (Nat.leb_spec (List.length l) int_max_str_digits) as [H|H].
  - split; [auto|]. intros _. now apply int_literal_digits.
  - split; [intros [z' Hz]; discriminate|lia].
Qed.


(** *** The size of a converted number *)








(** ** The document id *)

Lemma star_greedy_result p k i s g r :
  Re.star_greedy p k i s g = Some r ->
  exists n, n <= List.length s /\ k (i + n) (skipn n s) g = Some r.
Proof.
  revert i; induction s as [|c s IH]; intros i; cbn [Re.star_greedy].
  - intros H. exists 0. now rewrite Nat.add_0_r.
  - assert (H0 : k i (c :: s) g = Some r ->
                 exists n, n <= List.length (c :: s)
                           /\ k (i + n) (skipn n (c :: s)) g = Some r).
    { intros H. exists 0. rewrite Nat.add_0_r. split; [apply Nat.le_0_l|exact H]. }
    destruct (p c); [|exact H0].
    destruct (Re.star_greedy p k (S i) s g) as [r'|] eqn:Hs; [|exact H0].
    intros H. injection H as ->.
    destruct (IH _ Hs) as (n & Hn & Hk). exists (S n). cbn [List.length skipn].
    split; [lia|]. now replace (i + S n) with (S i + n) by lia.
Qed.

Lemma doc_id_match ma i s m :
  Re.match_at doc_id_regex ma i s = Some m ->
  exists c rest e,
    skipn 3 s = c :: rest /\ i + 3 < e /\ Re.m_caps m = [(1, (i + 3, e))].
Proof.
  unfold Re.match_at, doc_id_regex. cbn [Re.run Re.star].
  destruct s as [|c1 [|c2 [|c3 [|c4 s']]]];
    repeat match goal with
           | |- context [if ?b then _ else _] =>
               lazymatch b with
               | Re.lit _ _ => destruct b
               | id_char _ => destruct b
               end
           end; try discriminate.
  destruct (Re.star_greedy _ _ _ _ _) as [[e g]|] eqn:Hs; [|discriminate].
  intros H. injection H as <-.
  apply star_greedy_result in Hs as (n & _ & Hk).
  destruct (ma && _); [discriminate|]. injection Hk as <- <-.
  exists c4, s', (S (S (S (S i))) + n). cbn [skipn Re.m_caps].
  split; [reflexivity|]. split; [lia|].
  now replace (i + 3) with (S (S (S i))) by lia.
Qed.

Lemma doc_id_search url : forall s ma i m,
  skipn i url = s ->
  Re.search_from doc_id_regex ma i s = Some m ->
  exists c d, Re.group url m 1 = Some (c :: d).
Proof.
  induction s as [|x s IH]; intros ma i m Hs; cbn [Re.search_from].
  - destruct (Re.match_at doc_id_regex ma i []) eqn:Hm; [|discriminate].
    apply doc_id_match in Hm as (c & rest & e & Hsk & _). discriminate.
  - destruct (Re.match_at doc_id_regex ma i (x :: s)) as [m'|] eqn:Hm.
    + intros H. injection H as ->.
      apply doc_id_match in Hm as (c & rest & e & Hsk & He & Hc).
      unfold Re.group, Re.slice. rewrite Hc. cbn [Re.mark Nat.eqb].
      destruct (e - (i + 3)) as [|n] eqn:Hn; [lia|].
      replace (skipn (i + 3) url) with (skipn 3 (skipn i url))
        by (rewrite skipn_skipn; f_equal; lia).
      rewrite Hs, Hsk. cbn [firstn]. eauto.
    + apply IH. eapply skipn_tail; eauto.
Qed.

(** A document id that is found is not the empty string. *)
Lemma extract_doc_id_nonempty url doc_id :
  extract_doc_id url = Some doc_id -> exists c d, doc_id = c :: d.
Proof.
  unfold extract_doc_id, Re.search.
  destruct (Re.search_from doc_id_regex false 0 url) as [m|] eqn:Hm; [|discriminate].
  destruct (doc_id_search url url false 0 m eq_refl Hm) as (c & d & Hg).
  rewrite Hg. intros H. injection H as <-. eauto.
Qed.

(** Events that come before the loop and are no calls do not change
    what the loop does. *)
Lemma audit_loop_frame tr0 qs : forall acc tr,
  calls_made tr0 = 0 ->
  audit_loop qs acc (tr0 ++ tr)
  = (fst (audit_loop qs acc tr), tr0 ++ snd (audit_loop qs acc tr)).
Proof.
  induction qs as [|q qs IH]; intros acc tr H0; [reflexivity|].
  rewrite !audit_loop_cons. cbv zeta.
  rewrite calls_made_app, H0. cbn [Nat.add].
  rewrite <- !app_assoc.
  destruct (rate_limited (answer (S (calls_made tr)) (full_text q))).
  - now destruct (py_int (q_num_str q)).
  - destruct (truthy (answer (S (calls_made tr)) (full_text q))).
    + rewrite (app_assoc tr). now rewrite IH.
    + destruct (py_int (q_num_str q)); [|reflexivity].
      rewrite (app_assoc tr). now rewrite IH.
Qed.

(** With labels that can be converted the loop returns a report. *)
Lemma loop_returns qs : forall acc tr,
  Forall (fun q => py_int (q_num_str q) <> None) qs ->
  exists report, fst (audit_loop qs acc tr) = Ok report.
Proof.
  induction qs as [|q qs IH]; intros acc tr Hl.
  - cbn. eauto.
  - inversion Hl as [|? ? Hq Hqs]; subst.
    rewrite audit_loop_cons. cbv zeta.
    destruct (py_int (q_num_str q)) as [z|]; [|congruence].
    destruct (rate_limited _); [cbn; eauto|].
    destruct (truthy _); apply IH; exact Hqs.
Qed.

(** ** The handler *)

(** A request with a key, a document id and a fetched text runs the
    segmenter on that text. *)
Lemma audit_document_fetched url doc_id content doc_text :
  absent (GOOGLE_API_KEY E) = false ->
  extract_doc_id url = Some doc_id ->
  requests_get E (export_url doc_id) = Response 200 content ->
  decode content = Some doc_text ->
  audit_document url [] =
  match doc_text with
  | [] => (Raise (HTTPException 404
                    (str "Failed to get document text. Is it public?")),
           [EvGet (export_url doc_id)])
  | _ :: _ =>
      match parse_mcqs_from_text doc_text with
      | [] => (Raise (HTTPException 404
                        (str "No valid question blocks (e.g., 'Q1') found.")),
               [EvGet (export_url doc_id)])
      | q :: qs => audit_loop (q :: qs) [] [EvGet (export_url doc_id)]
      end
  end.
Proof.
  intros Hkey Hid Hget Hdec. unfold audit_document. rewrite Hkey, Hid.
  destruct (extract_doc_id_nonempty _ _ Hid) as (c & d & ->).
  unfold bind at 1, get_google_doc_text, bind at 1, emit.
  fold (export_url (c :: d)). cbn [app]. rewrite Hget. cbn [Z.eqb Pos.eqb].
  rewrite Hdec. unfold ret at 1.
  destruct doc_text as [|x t]; [reflexivity|].
  now destruct (parse_mcqs_from_text (x :: t)).
Qed.


Lemma calls_made_paced n qs : calls_made (paced_calls n qs) = List.length qs.
Proof.
  unfold calls_made. rewrite calls_of_paced.
  revert n. induction qs as [|q qs IH]; intros n; cbn; auto.
Qed.

(* ================================================================ *)
(** * The claims *)
(* ================================================================ *)

(** C2. A text with N occurrences of the question marker (N positions
    at which a marker starts, which is the number of matches of the
    marker pattern) is cut into exactly N blocks. The blocks are those
    of the matches of the pattern, in order; the text of each block
    starts with its marker; the matched spans follow one another without
    gap or overlap from the first marker to the end of the text; each
    span starts at a marker, holds no other marker, and ends where the
    next marker starts or where the text ends. *)
Theorem segmenter_partition doc_text :
  let ms := Re.finditer regex doc_text in
  let bs := parse_mcqs_from_text doc_text in
  List.length bs = count_markers doc_text
  /\ count_markers doc_text = List.length (Re.finditer marker_regex doc_text)
  /\ bs = map (to_question doc_text) ms
  /\ Forall (fun b => marker_at (full_text b) = true) bs
  /\ tiles ms (to_boundary doc_text) (List.length doc_text)
  /\ Forall (span_ok doc_text) ms.
Proof.
  cbv zeta. repeat split.
  - rewrite parse_mcqs_blocks. apply blocks_length.
  - symmetry. apply marker_occurrences.
  - apply parse_mcqs_matches.
  - rewrite parse_mcqs_blocks. apply Forall_forall. intros b Hb.
    destruct (in_blocks b doc_text Hb) as (n & Hm & ->).
    now apply block_marker.
  - rewrite finditer_regex.
    apply (segments_tile (List.length doc_text) doc_text 0). apply Nat.le_refl.
  - rewrite finditer_regex. now apply segments_spans.
Qed.

(** C8. The label of every block of the segmenter is the run of digits
    that follows the Q, after optional white space, at the head of the
    text of that block. *)
Theorem label_is_header_digits doc_text b :
  In b (parse_mcqs_from_text doc_text) ->
  exists r,
    full_text b = Q :: r
    /\ q_num_str b = takeWhile is_digit (dropWhile is_space r).
Proof.
  rewrite parse_mcqs_blocks. intros Hb.
  destruct (in_blocks b doc_text Hb) as (n & Hm & ->).
  destruct (block_header _ Hm) as (r & Ht & Hq & _). eauto.
Qed.


(** C6, as the program has it. A text without any question marker
    gives no block, and a request whose document is such a text is
    answered with status 404 after the fetch alone, without any call of
    the classifier. When the text is not empty the error is that of no
    question found; the empty text is never given to the segmenter (it
    is answered with the error of a failed fetch). *)
Theorem no_marker_no_question doc_text :
  count_markers doc_text = 0 ->
  parse_mcqs_from_text doc_text = []
  /\ forall url doc_id content,
       absent (GOOGLE_API_KEY E) = false ->
       extract_doc_id url = Some doc_id ->
       requests_get E (export_url doc_id) = Response 200 content ->
       decode content = Some doc_text ->
       exists detail,
         audit_document url []
         = (Raise (HTTPException 404 detail), [EvGet (export_url doc_id)])
         /\ (doc_text <> [] ->
             detail = str "No valid question blocks (e.g., 'Q1') found.").
Proof.
  intros H0.
  assert (Hp : parse_mcqs_from_text doc_text = []).
  { rewrite parse_mcqs_blocks. apply length_zero_iff_nil.
    now rewrite blocks_length. }
  split; [exact Hp|].
  intros url doc_id content Hkey Hid Hget Hdec.
  rewrite (audit_document_fetched url doc_id content doc_text Hkey Hid Hget Hdec).
  destruct doc_text as [|x t].
  - eexists. split; [reflexivity|congruence].
  - rewrite Hp. eexists. split; reflexivity.
Qed.

(** C9. A request whose fetch succeeds with status 200 and an empty
    body is answered with the not-found error of a failed fetch. *)
Theorem empty_document_is_fetch_failure url doc_id :
  absent (GOOGLE_API_KEY E) = false ->
  extract_doc_id url = Some doc_id ->
  requests_get E (export_url doc_id) = Response 200 [] ->
  audit_document url []
  = (Raise (HTTPException 404 (str "Failed to get document text. Is it public?")),
     [EvGet (export_url doc_id)]).
Proof.
  intros Hkey Hid Hget.
  exact (audit_document_fetched url doc_id [] [] Hkey Hid Hget eq_refl).
Qed.

(** C7, as the program has it. Without the credential the process
    still starts and serves, with the model client left unconfigured;
    every request is then answered with status 500 before anything
    else happens: no fetch, no call, and the same answer whatever the
    address sent. *)
Theorem missing_key_rejects_every_request url :
  absent (GOOGLE_API_KEY E) = true ->
  snd (module_init (GOOGLE_API_KEY E)) = Serving false
  /\ audit_document url []
     = (Raise (HTTPException 500 (str "Server is missing GOOGLE_API_KEY")), [])
  /\ status_of (fst (audit_document url [])) = 500%Z.
Proof.
  intros Hkey. unfold module_init, audit_document. rewrite Hkey.
  repeat split.
Qed.

(** C4. When the client answers every call with a normal verdict, the
    loop makes exactly one call for each block, in the order of the
    blocks, and returns the answers as they are, in that order. *)
Theorem all_verdicts_in_order qs :
  (forall k q, nth_error qs k = Some q ->
     normal_verdict (answer (S k) (full_text q)) = true) ->
  audit_loop qs [] [] = (Ok (answers_from 1 qs), paced_calls 1 qs)
  /\ List.length (answers_from 1 qs) = List.length qs
  /\ filter is_call (paced_calls 1 qs) = calls_from 1 qs.
Proof.
  intros H. split; [|split].
  - pose proof (loop_kept_prefix qs [] [] [] H) as Hl.
    rewrite app_nil_r in Hl. rewrite Hl. reflexivity.
  - apply answers_from_length.
  - apply calls_of_paced.
Qed.



(** C5, as the program has it. In the trace of the loop run on blocks
    whose labels [int] accepts (for the labels of the segmenter: those
    of at most 4300 digits), every call of the classifier is followed
    at once by the pause of five, also the call for the last block,
    except a call answered with the rate-limit signal: the handler
    returns right after that call, without a pause. *)
Theorem pause_unless_rate_limited qs :
  Forall (fun q => py_int (q_num_str q) <> None) qs ->
  paced_unless_rate_limited (snd (audit_loop qs [] [])).
Proof.
  intros Hl. rewrite (loop_trace qs [] [] Hl). apply loop_events_paced.
Qed.

(* ================================================================ *)
(** * Further properties *)
(* ================================================================ *)

(** ** The document id in a link *)

Lemma doc_id_match_exact ma i s :
  Re.match_at doc_id_regex ma i s =
  match id_here s with
  | Some id =>
      Some {| Re.m_start := i;
              Re.m_end := i + 3 + List.length id;
              Re.m_caps := [(1, (i + 3, i + 3 + List.length id))] |}
  | None => None
  end.
Proof.
  unfold Re.match_at, doc_id_regex, id_here. cbn [Re.run Re.star]. unfold Re.lit.
  destruct s as [|c1 [|c2 [|c3 r]]]; try reflexivity.
  - now destruct (47 =? c1)%N.
  - destruct (47 =? c1)%N; [|reflexivity]. now destruct (100 =? c2)%N.
  - rewrite (N.eqb_sym c1), (N.eqb_sym c2), (N.eqb_sym c3).
    destruct (47 =? c1)%N; [|reflexivity].
    destruct (100 =? c2)%N; [|reflexivity].
    destruct (47 =? c3)%N; [|reflexivity]. cbn [andb].
    destruct r as [|c4 s']; [reflexivity|]. cbn [takeWhile].
    destruct (id_char c4); [|reflexivity].
    rewrite (star_greedy_max _ _ _ _ _
               (i + 3 + List.length (c4 :: takeWhile id_char s'),
                [(1, (i + 3, i + 3 + List.length (c4 :: takeWhile id_char s')))])).
    + reflexivity.
    + cbn [List.length].
      match goal with
      | |- (if _ && (?x =? i) then _ else _) = _ =>
          replace (x =? i) with false by (symmetry; apply Nat.eqb_neq; lia)
      end.
      rewrite andb_false_r.
      replace (S (S (S (S i))) + List.length (takeWhile id_char s'))
        with (i + 3 + S (List.length (takeWhile id_char s'))) by lia.
      replace (S (S (S i))) with (i + 3) by lia. reflexivity.
Qed.

Lemma id_here_run s id :
  id_here s = Some id -> exists r, skipn 3 s = r /\ id = takeWhile id_char r.
Proof.
  unfold id_here. destruct s as [|c1 [|c2 [|c3 r]]]; try discriminate.
  destruct ((c1 =? 47) && (c2 =? 100) && (c3 =? 47))%N; [|discriminate].
  destruct (takeWhile id_char r) eqn:Ht; [discriminate|].
  intros H. injection H as <-. exists r. now split.
Qed.

Lemma doc_id_search_exact url : forall s ma i,
  skipn i url = s ->
  match Re.search_from doc_id_regex ma i s with
  | Some m => Re.group url m 1
  | None => None
  end = first_id s.
Proof.
  induction s as [|x s IH]; intros ma i Hs.
  - cbn [Re.search_from first_id]. rewrite doc_id_match_exact. reflexivity.
  - cbn [Re.search_from first_id]. rewrite doc_id_match_exact.
    destruct (id_here (x :: s)) as [id|] eqn:Hid.
    + unfold Re.group, Re.slice. cbn [Re.m_caps Re.mark Nat.eqb].
      destruct (id_here_run _ _ Hid) as (r & Hr & ->).
      replace (skipn (i + 3) url) with (skipn 3 (skipn i url))
        by (rewrite skipn_skipn; f_equal; lia).
      rewrite Hs, Hr.
      replace (i + 3 + List.length (takeWhile id_char r) - (i + 3))
        with (List.length (takeWhile id_char r)) by lia.
      now rewrite firstn_takeWhile.
    + apply IH. eapply skipn_tail; eauto.
Qed.

(** The program's search for the id finds the id at the first place
    where one starts. *)
Lemma extract_doc_id_first url : extract_doc_id url = first_id url.
Proof.
  unfold extract_doc_id, Re.search.
  exact (doc_id_search_exact url url false 0 eq_refl).
Qed.

Lemma id_here_shape s id :
  id_here s = Some id ->
  exists rest,
    s = str "/d/" ++ id ++ rest
    /\ id <> [] /\ forallb id_char id = true
    /\ match rest with c :: _ => id_char c = false | [] => True end.
Proof.
  unfold id_here. destruct s as [|c1 [|c2 [|c3 r]]]; try discriminate.
  destruct ((c1 =? 47) && (c2 =? 100) && (c3 =? 47))%N eqn:Hc; [|discriminate].
  apply andb_true_iff in Hc as [Hc H3]. apply andb_true_iff in Hc as [H1 H2].
  apply N.eqb_eq in H1, H2, H3. subst.
  destruct (takeWhile id_char r) as [|c id'] eqn:Ht; [discriminate|].
  intros H. injection H as <-. exists (dropWhile id_char r).
  rewrite <- Ht. split; [|split; [|split]].
  - change (str "/d/") with [47; 100; 47]%N. cbn [app].
    now rewrite takeWhile_dropWhile.
  - rewrite Ht. discriminate.
  - apply takeWhile_all.
  - destruct (dropWhile id_char r) eqn:Hd; [exact I|].
    eapply dropWhile_head; eauto.
Qed.

Lemma first_id_shape s : forall id,
  first_id s = Some id ->
  exists pre rest,
    s = pre ++ str "/d/" ++ id ++ rest
    /\ id <> [] /\ forallb id_char id = true
    /\ match rest with c :: _ => id_char c = false | [] => True end
    /\ forall p1 p2, pre = p1 ++ p2 -> p2 <> [] ->
         id_here (p2 ++ str "/d/" ++ id ++ rest) = None.
Proof.
  induction s as [|x s IH]; intros id; cbn [first_id].
  - destruct (id_here []) eqn:H; discriminate.
  - destruct (id_here (x :: s)) as [id'|] eqn:Hid.
    + intros H. injection H as ->.
      destruct (id_here_shape _ _ Hid) as (rest & Hs & Hne & Hall & Hr).
      exists [], rest. repeat split; auto.
      intros p1 p2 Hp. destruct p1; destruct p2; try discriminate. congruence.
    + intros H. destruct (IH _ H) as (pre & rest & Hs & Hne & Hall & Hr & Hf).
      exists (x :: pre), rest. repeat split; auto.
      * cbn [app]. now rewrite Hs.
      * intros p1 p2 Hp Hp2. destruct p1 as [|y p1]; cbn [app] in Hp.
        -- subst p2. cbn [app]. now rewrite <- Hs.
        -- injection Hp as -> Hp. now apply Hf with p1.
Qed.

Lemma id_here_starts c rest :
  id_char c = true -> id_here (str "/d/" ++ c :: rest) <> None.
Proof.
  intros Hc. change (str "/d/") with [47; 100; 47]%N. cbn. now rewrite Hc.
Qed.

Lemma first_id_none s :
  first_id s = None <->
  (forall pre c rest, s = pre ++ str "/d/" ++ c :: rest -> id_char c = false).
Proof.
  induction s as [|x s IH]; cbn [first_id].
  - split; [|reflexivity]. intros _ pre c rest H.
    destruct pre; discriminate.
  - destruct (id_here (x :: s)) as [id|] eqn:Hid.
    + split; [discriminate|]. intros H. exfalso.
      destruct (id_here_shape _ _ Hid) as (rest & Hs & Hne & Hall & _).
      destruct id as [|c id]; [congruence|].
      cbn [forallb] in Hall. apply andb_true_iff in Hall as [Hc _].
      specialize (H [] c (id ++ rest)). cbn [app] in H.
      rewrite H in Hc; [discriminate|]. rewrite Hs. now cbn [app].
    + rewrite IH. split; intros H pre c rest Hs.
      * destruct pre as [|y pre]; cbn [app] in Hs.
        -- destruct (id_char c) eqn:Hc; auto. exfalso.
           apply (id_here_starts c rest Hc). now rewrite <- Hs.
        -- injection Hs as _ Hs. exact (H pre c rest Hs).
      * apply (H (x :: pre) c rest). cbn [app]. now rewrite Hs.
Qed.


(** X1. The id taken from a link is the first place of the link where
    [/d/] is followed by an id character, and it is the whole run of id
    characters there: not empty, made of letters, digits, hyphens and
    underscores only, and followed by no further id character. *)
Theorem doc_id_is_first_run url doc_id :
  extract_doc_id url = Some doc_id ->
  exists pre rest,
    url = pre ++ str "/d/" ++ doc_id ++ rest
    /\ doc_id <> [] /\ forallb id_char doc_id = true
    /\ match rest with c :: _ => id_char c = false | [] => True end
    /\ forall p1 p2, pre = p1 ++ p2 -> p2 <> [] ->
         id_here (p2 ++ str "/d/" ++ doc_id ++ rest) = None.
Proof. rewrite extract_doc_id_first. apply first_id_shape. Qed.

(** X2. A link in which no [/d/] is followed by an id character is
    answered with status 400, and nothing is fetched or asked before. *)
Theorem link_without_id_is_rejected url :
  absent (GOOGLE_API_KEY E) = false ->
  (forall pre c rest, url = pre ++ str "/d/" ++ c :: rest -> id_char c = false) ->
  audit_document url [] = (Raise (HTTPException 400 (str "Invalid Google Doc link.")), []).
Proof.
  intros Hkey Hno. apply first_id_none in Hno.
  unfold audit_document. now rewrite Hkey, extract_doc_id_first, Hno.
Qed.

Lemma first_id_export doc_id :
  doc_id <> [] -> forallb id_char doc_id = true ->
  first_id (export_url doc_id) = Some doc_id.
Proof.
  intros Hne Hall. unfold export_url.
  let x := eval vm_compute in (str "https://docs.google.com/document/d/") in
  change (str "https://docs.google.com/document/d/") with x.
  let x := eval vm_compute in (str "/export?format=txt") in
  change (str "/export?format=txt") with x.
  cbn [app first_id id_here N.eqb Pos.eqb andb].
  rewrite takeWhile_all_app by exact Hall.
  cbn [takeWhile]. change (id_char 47) with false. cbv iota.
  rewrite app_nil_r. destruct doc_id; [congruence|reflexivity].
Qed.

(** X3. The address the fetcher builds from an id leads back to that
    id: a non-empty id of id characters is what [extract_doc_id] finds
    in its own export address. *)
Theorem export_url_round_trip doc_id :
  doc_id <> [] -> forallb id_char doc_id = true ->
  extract_doc_id (export_url doc_id) = Some doc_id.
Proof. rewrite extract_doc_id_first. apply first_id_export. Qed.

(** ** The outcomes of a request *)

(** The handler, case by case. *)
Lemma audit_document_cases url :
  audit_document url [] =
  if absent (GOOGLE_API_KEY E) then
    (Raise (HTTPException 500 (str "Server is missing GOOGLE_API_KEY")), [])
  else
    match extract_doc_id url with
    | None => (Raise (HTTPException 400 (str "Invalid Google Doc link.")), [])
    | Some doc_id =>
        let fetch_failed :=
          (@Raise (list pyval)
             (HTTPException 404 (str "Failed to get document text. Is it public?")),
           [EvGet (export_url doc_id)]) in
        match requests_get E (export_url doc_id) with
        | Response status_code content =>
            if (status_code =? 200)%Z then
              match decode content with
              | None => (Raise UnicodeDecodeError, [EvGet (export_url doc_id)])
              | Some [] => fetch_failed
              | Some (x :: t) =>
                  match parse_mcqs_from_text (x :: t) with
                  | [] =>
                      (Raise (HTTPException 404
                                (str "No valid question blocks (e.g., 'Q1') found.")),
                       [EvGet (export_url doc_id)])
                  | q :: qs => audit_loop (q :: qs) [] [EvGet (export_url doc_id)]
                  end
              end
            else fetch_failed
        | RequestException _ => fetch_failed
        end
    end.
Proof.
  unfold audit_document. destruct (absent (GOOGLE_API_KEY E)); [reflexivity|].
  destruct (extract_doc_id url) as [doc_id|] eqn:Hid; [|reflexivity].
  destruct (extract_doc_id_nonempty _ _ Hid) as (c & d & ->).
  unfold bind at 1, get_google_doc_text, bind at 1, emit.
  fold (export_url (c :: d)). cbn [app]. cbv zeta.
  destruct (requests_get E (export_url (c :: d))) as [status_code content|msg];
    [|reflexivity].
  destruct (status_code =? 200)%Z; [|reflexivity].
  destruct (decode content) as [[|x t]|]; try reflexivity.
  unfold ret at 1. now destruct (parse_mcqs_from_text (x :: t)).
Qed.

(** The loop only adds calls and pauses to the trace. *)
Lemma loop_trace_no_get qs : forall acc tr,
  exists rest,
    snd (audit_loop qs acc tr) = tr ++ rest
    /\ forallb (fun e => negb (is_get e)) rest = true.
Proof.
  induction qs as [|q qs IH]; intros acc tr.
  - exists []. cbn. now rewrite app_nil_r.
  - rewrite audit_loop_cons. cbv zeta.
    assert (Hstop : forall r : result (list pyval),
              exists rest,
                snd (r, tr ++ [EvCall (S (calls_made tr)) (full_text q)]) = tr ++ rest
                /\ forallb (fun e => negb (is_get e)) rest = true).
    { intros r. now exists [EvCall (S (calls_made tr)) (full_text q)]. }
    assert (Hgo : forall acc',
              exists rest,
                snd (audit_loop qs acc'
                       ((tr ++ [EvCall (S (calls_made tr)) (full_text q)])
                          ++ [EvSleep 5])) = tr ++ rest
                /\ forallb (fun e => negb (is_get e)) rest = true).
    { intros acc'. destruct (IH acc' ((tr ++ [EvCall (S (calls_made tr)) (full_text q)])
                                        ++ [EvSleep 5])) as (rest & Hr & Hg).
      exists (EvCall (S (calls_made tr)) (full_text q) :: EvSleep 5 :: rest).
      split; [|exact Hg]. rewrite Hr, <- !app_assoc. reflexivity. }
    destruct (rate_limited _).
    + destruct (py_int (q_num_str q)); apply Hstop.
    + destruct (truthy _); [apply Hgo|].
      destruct (py_int (q_num_str q)); [apply Hgo|apply Hstop].
Qed.

(** A report that is returned has grown by at least one entry when
    there was a block to process. *)
Lemma loop_report_grows qs : forall acc tr report,
  fst (audit_loop qs acc tr) = Ok report ->
  List.length acc <= List.length report
  /\ (qs <> [] -> List.length acc < List.length report).
Proof.
  induction qs as [|q qs IH]; intros acc tr report.
  - cbn. intros H. injection H as <-. split; [apply Nat.le_refl|congruence].
  - rewrite audit_loop_cons. cbv zeta.
    assert (Hgo : forall x tr',
              fst (audit_loop qs (acc ++ [x]) tr') = Ok report ->
              List.length acc <= List.length report
              /\ (q :: qs <> [] -> List.length acc < List.length report)).
    { intros x tr' H. apply IH in H as [H _].
      rewrite length_app in H. cbn [List.length] in H. split; intros; lia. }
    destruct (rate_limited _).
    + destruct (py_int (q_num_str q)); [|discriminate].
      cbn [fst]. intros H. injection H as <-.
      rewrite length_app. cbn [List.length]. split; intros; lia.
    + destruct (truthy _); [apply Hgo|].
      destruct (py_int (q_num_str q)); [apply Hgo|discriminate].
Qed.

(** X4. When the document host answers with a status other than 200,
    or the request fails, the handler answers with status 404 and the
    text of a failed fetch, after this one fetch and nothing else. *)
Theorem failed_fetch_is_not_found url doc_id :
  absent (GOOGLE_API_KEY E) = false ->
  extract_doc_id url = Some doc_id ->
  match requests_get E (export_url doc_id) with
  | Response status_code _ => status_code <> 200%Z
  | RequestException _ => True
  end ->
  audit_document url []
  = (Raise (HTTPException 404 (str "Failed to get document text. Is it public?")),
     [EvGet (export_url doc_id)]).
Proof.
  intros Hkey Hid Hget. rewrite audit_document_cases, Hkey, Hid. cbv zeta.
  destruct (requests_get E (export_url doc_id)) as [c content|msg]; [|reflexivity].
  apply Z.eqb_neq in Hget. now rewrite Hget.
Qed.

(** X5. A body that is not valid UTF-8, sent with status 200, is not
    reported as a failed fetch: the decoding error leaves the handler
    unhandled, which a client sees as status 500. *)
Theorem undecodable_body_is_server_error url doc_id content :
  absent (GOOGLE_API_KEY E) = false ->
  extract_doc_id url = Some doc_id ->
  requests_get E (export_url doc_id) = Response 200 content ->
  decode content = None ->
  audit_document url [] = (Raise UnicodeDecodeError, [EvGet (export_url doc_id)])
  /\ status_of (fst (audit_document url [])) = 500%Z.
Proof.
  intros Hkey Hid Hget Hdec.
  assert (H : audit_document url []
              = (Raise UnicodeDecodeError, [EvGet (export_url doc_id)])).
  { rewrite audit_document_cases, Hkey, Hid. cbv zeta.
    now rewrite Hget, Hdec. }
  split; [exact H|]. now rewrite H.
Qed.


(** X7. The handler fetches at most once, before any call of the
    classifier, and only from the export address of the id it took from
    the link, an address on the document host. *)
Theorem only_export_address_fetched url :
  let tr := snd (audit_document url []) in
  tr = []
  \/ exists doc_id rest,
       extract_doc_id url = Some doc_id
       /\ tr = EvGet (export_url doc_id) :: rest
       /\ forallb (fun e => negb (is_get e)) rest = true
       /\ startswith (str "https://docs.google.com/document/d/") (export_url doc_id)
          = true.
Proof.
  cbv zeta. rewrite audit_document_cases.
  destruct (absent (GOOGLE_API_KEY E)); [now left|].
  destruct (extract_doc_id url) as [doc_id|] eqn:Hid; [|now left]. cbv zeta.
  right. exists doc_id.
  assert (Hs : startswith (str "https://docs.google.com/document/d/")
                 (export_url doc_id) = true) by reflexivity.
  assert (H1 : forall r : result (list pyval),
            exists rest,
              Some doc_id = Some doc_id
              /\ snd (r, [EvGet (export_url doc_id)]) = EvGet (export_url doc_id) :: rest
              /\ forallb (fun e => negb (is_get e)) rest = true
              /\ startswith (str "https://docs.google.com/document/d/")
                   (export_url doc_id) = true).
  { intros r. exists []. auto. }
  destruct (requests_get E (export_url doc_id)) as [c content|msg]; [|apply H1].
  destruct (c =? 200)%Z; [|apply H1].
  destruct (decode content) as [[|x t]|]; [apply H1| |apply H1].
  destruct (parse_mcqs_from_text (x :: t)) as [|q qs]; [apply H1|].
  destruct (loop_trace_no_get (q :: qs) [] [EvGet (export_url doc_id)])
    as (rest & Hr & Hg).
  exists rest. rewrite Hr. auto.
Qed.


(** ** The report and the calls *)

Lemma loop_events_calls qs : forall n,
  calls_made (loop_events n qs) <= List.length qs
  /\ filter is_call (loop_events n qs)
     = calls_from n (firstn (calls_made (loop_events n qs)) qs)
  /\ (calls_made (loop_events n qs) = List.length qs
      \/ exists k q,
           calls_made (loop_events n qs) = S k
           /\ nth_error qs k = Some q
           /\ rate_limited (answer (n + k) (full_text q)) = true).
Proof.
  induction qs as [|q qs IH]; intros n.
  - cbn. auto.
  - cbn [loop_events]. unfold calls_made. cbn [filter is_call List.length].
    destruct (rate_limited (answer n (full_text q))) eqn:Hrl.
    + cbn. split; [lia|]. split; [reflexivity|].
      right. exists 0, q. rewrite Nat.add_0_r. auto.
    + cbn [filter is_call List.length firstn calls_from].
      fold (calls_made (loop_events (S n) qs)).
      destruct (IH (S n)) as (H1 & H2 & H3). split; [lia|]. split.
      * unfold calls_made in H2 at 1. now rewrite H2.
      * destruct H3 as [H3|(k & q' & Hk & Hq & Hr)]; [left; lia|].
        right. exists (S k), q'. cbn [nth_error].
        replace (n + S k) with (S n + k) by lia. auto.
Qed.

Lemma calls_made_call n t tr : calls_made (EvCall n t :: tr) = S (calls_made tr).
Proof. reflexivity. Qed.

Lemma calls_made_sleep n tr : calls_made (EvSleep n :: tr) = calls_made tr.
Proof. reflexivity. Qed.

(** A report that is returned has one entry more for each call
    made. *)
Lemma loop_report_length qs : forall acc tr report,
  fst (audit_loop qs acc tr) = Ok report ->
  List.length report
  = List.length acc + calls_made (loop_events (S (calls_made tr)) qs).
Proof.
  induction qs as [|q qs IH]; intros acc tr report.
  - cbn. intros H. injection H as <-. unfold calls_made. cbn. lia.
  - rewrite audit_loop_cons. cbv zeta. cbn [loop_events].
    rewrite calls_made_call.
    destruct (rate_limited (answer (S (calls_made tr)) (full_text q))).
    + destruct (py_int (q_num_str q)) as [z|]; [|discriminate].
      change (calls_made []) with 0. cbn [fst]. intros H. injection H as <-.
      rewrite length_app. cbn [List.length]. lia.
    + rewrite calls_made_sleep.
      destruct (truthy _); [|destruct (py_int (q_num_str q)) as [z|];
                              [|discriminate]];
        intros H; apply IH in H;
        rewrite calls_made_turn, length_app in H; cbn [List.length] in H; lia.
Qed.

(** X8. With labels that can be converted the loop returns a report
    with exactly one entry for each call it made. The calls are made
    for the blocks in their order, numbered from 1, without a gap or a
    repetition, and they stop before the last block only after an
    answer that is the rate-limit signal. *)
Theorem one_entry_per_call qs :
  Forall (fun q => py_int (q_num_str q) <> None) qs ->
  exists report,
    fst (audit_loop qs [] []) = Ok report
    /\ let tr := snd (audit_loop qs [] []) in
       List.length report = calls_made tr
       /\ calls_made tr <= List.length qs
       /\ filter is_call tr = calls_from 1 (firstn (calls_made tr) qs)
       /\ (calls_made tr = List.length qs
           \/ exists k q,
                calls_made tr = S k
                /\ nth_error qs k = Some q
                /\ rate_limited (answer (S k) (full_text q)) = true).
Proof.
  intros Hl. destruct (loop_returns qs [] [] Hl) as [report Hr].
  exists report. split; [exact Hr|]. cbv zeta.
  rewrite (loop_trace qs [] [] Hl). cbn [app].
  change (calls_made []) with 0.
  destruct (loop_events_calls qs 1) as (H1 & H2 & H3).
  split; [|split; [exact H1|split; [exact H2|exact H3]]].
  now rewrite (loop_report_length qs [] [] report Hr).
Qed.

(** Where every entry of the part of the report that the loop adds
    comes from. *)
Lemma loop_entries qs : forall acc tr report,
  fst (audit_loop qs acc tr) = Ok report ->
  exists new,
    report = acc ++ new
    /\ forall k e, nth_error new k = Some e ->
       exists q,
         nth_error qs k = Some q
         /\ let v := answer (S (calls_made tr) + k) (full_text q) in
            (rate_limited v = false /\ truthy v = true /\ e = v)
            \/ (rate_limited v = false /\ truthy v = false
                /\ exists z, py_int (q_num_str q) = Some z
                             /\ e = inconclusive z
                                      (str "Failed to audit (API or JSON error)"))
            \/ (rate_limited v = true /\ S k = List.length new
                /\ exists z, py_int (q_num_str q) = Some z
                             /\ e = inconclusive z
                                      (str "Failed: API Rate Limit hit.")).
Proof.
  induction qs as [|q qs IH]; intros acc tr report.
  - cbn. intros H. injection H as <-. exists []. rewrite app_nil_r.
    split; [reflexivity|]. intros [|k] e; discriminate.
  - rewrite audit_loop_cons. cbv zeta.
    assert (Hgo : forall x,
              (let v := answer (S (calls_made tr) + 0) (full_text q) in
               (rate_limited v = false /\ truthy v = true /\ x = v)
               \/ (rate_limited v = false /\ truthy v = false
                   /\ exists z, py_int (q_num_str q) = Some z
                                /\ x = inconclusive z
                                         (str "Failed to audit (API or JSON error)"))
               \/ (rate_limited v = true /\ 1 = 0
                   /\ exists z, py_int (q_num_str q) = Some z
                                /\ x = inconclusive z
                                         (str "Failed: API Rate Limit hit."))) ->
              fst (audit_loop qs (acc ++ [x])
                     ((tr ++ [EvCall (S (calls_made tr)) (full_text q)])
                        ++ [EvSleep 5])) = Ok report ->
              exists new,
                report = acc ++ new
                /\ forall k e, nth_error new k = Some e ->
                   exists q0,
                     nth_error (q :: qs) k = Some q0
                     /\ let v := answer (S (calls_made tr) + k) (full_text q0) in
                        (rate_limited v = false /\ truthy v = true /\ e = v)
                        \/ (rate_limited v = false /\ truthy v = false
                            /\ exists z, py_int (q_num_str q0) = Some z
                                         /\ e = inconclusive z
                                                  (str "Failed to audit (API or JSON error)"))
                        \/ (rate_limited v = true /\ S k = List.length new
                            /\ exists z, py_int (q_num_str q0) = Some z
                                         /\ e = inconclusive z
                                                  (str "Failed: API Rate Limit hit."))).
    { intros x Hx H. apply IH in H as (new & -> & Hnew).
      exists (x :: new). rewrite <- app_assoc. split; [reflexivity|].
      intros [|k] e Hk; cbn [nth_error] in Hk.
      - injection Hk as <-. exists q. split; [reflexivity|].
        cbv zeta in Hx. cbv zeta.
        destruct Hx as [Hx|[Hx|(_ & Hx & _)]]; [now left|right; now left|discriminate].
      - destruct (Hnew k e Hk) as (q0 & Hq0 & Hc). exists q0.
        split; [exact Hq0|]. rewrite calls_made_turn in Hc. cbv zeta in Hc.
        cbv zeta. cbn [List.length].
        replace (S (calls_made tr) + S k) with (S (S (calls_made tr)) + k) by lia.
        destruct Hc as [Hc|[Hc|(Hc1 & Hc2 & Hc3)]];
          [now left|right; now left|right; right].
        split; [exact Hc1|]. split; [now rewrite Hc2|exact Hc3]. }
    rewrite Nat.add_0_r in Hgo.
    destruct (rate_limited (answer (S (calls_made tr)) (full_text q))) eqn:Hrl.
    + destruct (py_int (q_num_str q)) as [z|] eqn:Hz; [|discriminate].
      cbn [fst]. intros H. injection H as <-.
      exists [inconclusive z (str "Failed: API Rate Limit hit.")].
      split; [reflexivity|]. intros [|[|k]] e Hk; try discriminate.
      injection Hk as <-. exists q. split; [reflexivity|]. cbv zeta.
      rewrite Nat.add_0_r. right. right. rewrite Hrl. eauto.
    + destruct (truthy (answer (S (calls_made tr)) (full_text q))) eqn:Htr.
      * apply Hgo. now left.
      * destruct (py_int (q_num_str q)) as [z|] eqn:Hz; [|discriminate].
        apply Hgo. right. left. eauto.
Qed.

(** X9. Every entry of a report that the loop returns belongs to the
    block at the same place: it is the answer of the client when that
    answer is a true value, the entry for a failure (with the number of
    the label) when the answer is [None] or any other false value, and
    the entry for the rate limit, as the last entry, when the answer is
    the rate-limit signal. *)
Theorem report_entries qs report :
  fst (audit_loop qs [] []) = Ok report ->
  forall k e, nth_error report k = Some e ->
    exists q,
      nth_error qs k = Some q
      /\ let v := answer (S k) (full_text q) in
         (rate_limited v = false /\ truthy v = true /\ e = v)
         \/ (rate_limited v = false /\ truthy v = false
             /\ exists z, py_int (q_num_str q) = Some z
                          /\ e = inconclusive z
                                   (str "Failed to audit (API or JSON error)"))
         \/ (rate_limited v = true /\ S k = List.length report
             /\ exists z, py_int (q_num_str q) = Some z
                          /\ e = inconclusive z (str "Failed: API Rate Limit hit.")).
Proof.
  intros H. apply loop_entries in H as (new & -> & Hnew). exact Hnew.
Qed.

Lemma total_sleep_paced n qs :
  total_sleep (paced_calls n qs) = (5 * Z.of_nat (List.length qs))%Z.
Proof.
  revert n; induction qs as [|q qs IH]; intros n; [reflexivity|].
  cbn [paced_calls total_sleep List.length]. rewrite IH. lia.
Qed.

Lemma loop_events_no_limit qs : forall n,
  (forall k q, nth_error qs k = Some q ->
     rate_limited (answer (n + k) (full_text q)) = false) ->
  loop_events n qs = paced_calls n qs.
Proof.
  induction qs as [|q qs IH]; intros n H; [reflexivity|].
  cbn [loop_events paced_calls].
  pose proof (H 0 q eq_refl) as H0. rewrite Nat.add_0_r in H0. rewrite H0.
  rewrite IH; [reflexivity|].
  intros k q' Hk. replace (S n + k) with (n + S k) by lia. now apply H.
Qed.

(** X10. For blocks whose labels [int] accepts: when no answer is the
    rate-limit signal, whether the answers are verdicts or failures,
    the loop makes one call for each block, each followed by the
    pause, returns one entry for each block, and has slept five
    seconds for each block. *)
Theorem audit_without_rate_limit qs :
  Forall (fun q => py_int (q_num_str q) <> None) qs ->
  (forall k q, nth_error qs k = Some q ->
     rate_limited (answer (S k) (full_text q)) = false) ->
  exists report,
    audit_loop qs [] [] = (Ok report, paced_calls 1 qs)
    /\ List.length report = List.length qs
    /\ total_sleep (paced_calls 1 qs) = (5 * Z.of_nat (List.length qs))%Z.
Proof.
  intros Hl Hno. destruct (loop_returns qs [] [] Hl) as [report Hr].
  exists report.
  pose proof (loop_trace qs [] [] Hl) as Ht. cbn [app] in Ht.
  change (calls_made []) with 0 in Ht.
  rewrite (loop_events_no_limit qs 1 Hno) in Ht.
  split; [|split].
  - destruct (audit_loop qs [] []) as [r tr]. cbn [fst snd] in *. congruence.
  - rewrite (loop_report_length qs [] [] report Hr).
    change (calls_made []) with 0.
    rewrite (loop_events_no_limit qs 1 Hno), calls_made_paced. reflexivity.
  - apply total_sleep_paced.
Qed.

(** ** The rate-limit test of the client *)





(** ** More on the segmenter *)

Lemma dropWhile_idem (p : N -> bool) l : dropWhile p (dropWhile p l) = dropWhile p l.
Proof.
  induction l as [|c l IH]; [reflexivity|].
  cbn [dropWhile]. destruct (p c) eqn:Hc; [exact IH|].
  cbn [dropWhile]. now rewrite Hc.
Qed.

Lemma rstrip_idem r : rstrip (rstrip r) = rstrip r.
Proof. unfold rstrip. now rewrite rev_involutive, dropWhile_idem. Qed.

(** What [strip] keeps is a piece of the string. *)
Lemma strip_slice x : exists a b, x = a ++ strip x ++ b.
Proof.
  destruct (rstrip_prefix x) as [b Hb].
  exists (takeWhile is_space (rstrip x)), b.
  unfold strip, lstrip. rewrite app_assoc, takeWhile_dropWhile. exact Hb.
Qed.

Lemma block_slice s :
  marker_at s = true ->
  strip (full_text (block_at s)) = full_text (block_at s)
  /\ exists a b, s = a ++ full_text (block_at s) ++ b.
Proof.
  intros Hm. split.
  - destruct s as [|c s1]; [discriminate|].
    destruct (block_text c s1 Hm) as (Hc & _ & _).
    cbn [block_at full_text tl]. change (1 + to_boundary s1) with (S (to_boundary s1)).
    cbn [firstn]. subst c. rewrite !strip_cons by reflexivity.
    now rewrite rstrip_idem.
  - cbn [block_at full_text].
    destruct (strip_slice (firstn (1 + to_boundary (tl s)) s)) as (a & b & H).
    exists a, (b ++ skipn (1 + to_boundary (tl s)) s).
    rewrite <- (firstn_skipn (1 + to_boundary (tl s)) s) at 1.
    rewrite H at 1. now rewrite <- !app_assoc.
Qed.

(** X12. The text of every block is trimmed (stripping it again
    changes nothing) and is taken from the document as it stands: it
    is a piece of the document, with nothing added, removed or changed
    inside. *)
Theorem blocks_are_trimmed_pieces doc_text b :
  In b (parse_mcqs_from_text doc_text) ->
  strip (full_text b) = full_text b
  /\ exists before after, doc_text = before ++ full_text b ++ after.
Proof.
  rewrite parse_mcqs_blocks. intros Hb.
  destruct (in_blocks b doc_text Hb) as (n & Hm & ->).
  destruct (block_slice _ Hm) as (H1 & a & c & H2).
  split; [exact H1|].
  exists (firstn n doc_text ++ a), c.
  rewrite <- (firstn_skipn n doc_text) at 1. rewrite H2 at 1.
  now rewrite <- !app_assoc.
Qed.

(** Whether a marker starts a text does not depend on what follows a
    later boundary. *)
Lemma marker_at_before_boundary c t s2 :
  at_boundary s2 = true -> marker_at ((c :: t) ++ s2) = marker_at (c :: t).
Proof.
  intros Hb. cbn [app marker_at]. f_equal. rewrite dropWhile_app.
  destruct (dropWhile is_space t) as [|d r]; [|reflexivity].
  destruct s2 as [|x s2]; [reflexivity|].
  rewrite boundary_cons in Hb. cbn [marker_at] in Hb.
  apply andb_true_iff in Hb as [Hx _]. apply N.eqb_eq in Hx. subst x.
  reflexivity.
Qed.

Lemma to_boundary_before_boundary t s2 :
  at_boundary s2 = true -> to_boundary (t ++ s2) = to_boundary t.
Proof.
  intros Hb. induction t as [|c t IH].
  - cbn [app]. now apply to_boundary_at.
  - change ((c :: t) ++ s2) with (c :: t ++ s2). cbn [to_boundary].
    change (c :: t ++ s2) with ((c :: t) ++ s2).
    rewrite (marker_at_before_boundary c t s2 Hb). now rewrite IH.
Qed.

Lemma takeWhile_before (p : N -> bool) l s2 :
  match s2 with x :: _ => p x = false | [] => True end ->
  takeWhile p (l ++ s2) = takeWhile p l.
Proof.
  intros H. induction l as [|c l IH]; cbn [app takeWhile].
  - destruct s2 as [|x s2]; [reflexivity|]. cbn [takeWhile]. now rewrite H.
  - now rewrite IH.
Qed.

Lemma boundary_head s2 :
  at_boundary s2 = true ->
  match s2 with x :: _ => is_digit x = false | [] => True end.
Proof.
  destruct s2 as [|x s2]; [trivial|]. rewrite boundary_cons. cbn [marker_at].
  intros H. apply andb_true_iff in H as [Hx _]. apply N.eqb_eq in Hx. now subst x.
Qed.

Lemma block_at_before_boundary c t s2 :
  at_boundary s2 = true -> marker_at (c :: t) = true ->
  block_at ((c :: t) ++ s2) = block_at (c :: t).
Proof.
  intros Hb Hm. unfold block_at. cbn [app tl header_digits]. f_equal.
  - rewrite dropWhile_app.
    cbn [marker_at] in Hm. apply andb_true_iff in Hm as [_ Hm].
    destruct (dropWhile is_space t) as [|d r]; [discriminate|].
    apply takeWhile_before. now apply boundary_head.
  - rewrite (to_boundary_before_boundary t s2 Hb).
    change (1 + to_boundary t) with (S (to_boundary t)). cbn [firstn].
    rewrite firstn_app.
    replace (to_boundary t - List.length t) with 0
      by (pose proof (to_boundary_le t); lia).
    cbn [firstn]. now rewrite app_nil_r.
Qed.

Lemma blocks_app s1 s2 :
  at_boundary s2 = true -> blocks (s1 ++ s2) = blocks s1 ++ blocks s2.
Proof.
  intros Hb. induction s1 as [|c t IH]; [reflexivity|].
  change ((c :: t) ++ s2) with (c :: t ++ s2). cbn [blocks].
  change (c :: t ++ s2) with ((c :: t) ++ s2).
  rewrite (marker_at_before_boundary c t s2 Hb), IH, <- app_assoc.
  destruct (marker_at (c :: t)) eqn:Hm; [|reflexivity].
  now rewrite (block_at_before_boundary c t s2 Hb Hm).
Qed.

(** X13. Segmenting can be done piece by piece: when the second part of
    a document starts at a question marker, the blocks of the whole are
    the blocks of the first part followed by the blocks of the second.
    No block depends on what comes after the next marker. *)
Theorem segmenter_concat s1 s2 :
  marker_at s2 = true ->
  parse_mcqs_from_text (s1 ++ s2)
  = parse_mcqs_from_text s1 ++ parse_mcqs_from_text s2.
Proof.
  intros Hm. rewrite !parse_mcqs_blocks. apply blocks_app.
  unfold at_boundary. now rewrite Hm.
Qed.

Lemma marker_at_app t x : marker_at t = true -> marker_at (t ++ x) = true.
Proof.
  destruct t as [|c t]; [discriminate|]. cbn [app marker_at].
  intros H. apply andb_true_iff in H as [-> H]. cbn [andb].
  rewrite dropWhile_app. now destruct (dropWhile is_space t).
Qed.

Lemma skipn_app_short (l x : text) j :
  j <= List.length l -> skipn j (l ++ x) = skipn j l ++ x.
Proof.
  intros H. rewrite skipn_app. replace (j - List.length l) with 0 by lia.
  reflexivity.
Qed.

(** A text none of whose later places starts a marker. *)
Lemma blocks_single c f :
  marker_at (c :: f) = true ->
  (forall j, j < List.length f -> marker_at (skipn j f) = false) ->
  to_boundary f = List.length f /\ blocks (c :: f) = [block_at (c :: f)].
Proof.
  intros Hm Hno.
  assert (H : to_boundary f = List.length f /\ blocks f = []).
  { clear Hm. induction f as [|x f IH]; [now split|].
    pose proof (Hno 0 ltac:(cbn; lia)) as H0. cbn [skipn] in H0.
    cbn [to_boundary blocks List.length]. rewrite H0.
    destruct IH as [IH1 IH2].
    - intros j Hj. apply (Hno (S j)). cbn [List.length]. lia.
    - now rewrite IH1, IH2. }
  destruct H as [H1 H2]. split; [exact H1|].
  cbn [blocks]. now rewrite Hm, H2.
Qed.

Lemma block_reparse s :
  marker_at s = true -> blocks (full_text (block_at s)) = [block_at s].
Proof.
  intros Hm. destruct s as [|c s1]; [discriminate|].
  pose proof (block_marker _ Hm) as Hbm.
  destruct (block_header _ Hm) as (r & Hr & Hq & _).
  pose proof Hr as Hr'.
  cbn [block_at full_text tl] in Hr'.
  change (1 + to_boundary s1) with (S (to_boundary s1)) in Hr'. cbn [firstn] in Hr'.
  assert (Hc : c = Q).
  { cbn [marker_at] in Hm. apply andb_true_iff in Hm as [Hc _].
    now apply N.eqb_eq in Hc. }
  subst c. rewrite strip_cons in Hr' by reflexivity. injection Hr' as Hr'.
  (* r is the span after the Q without its trailing white space *)
  set (f := firstn (to_boundary s1) s1) in *.
  destruct (rstrip_prefix f) as [w Hw]. rewrite Hr' in Hw.
  assert (Hlen : List.length f = to_boundary s1).
  { subst f. rewrite length_firstn. pose proof (to_boundary_le s1). lia. }
  assert (Hno : forall j, j < List.length r -> marker_at (skipn j r) = false).
  { intros j Hj.
    destruct (marker_at (skipn j r)) eqn:Hmj; [|reflexivity]. exfalso.
    assert (Hjf : j < to_boundary s1).
    { rewrite <- Hlen, Hw, length_app. lia. }
    pose proof (to_boundary_before s1 j Hjf) as Hb.
    unfold at_boundary in Hb. apply orb_false_iff in Hb as [Hb _].
    rewrite <- (firstn_skipn (to_boundary s1) s1) in Hb. fold f in Hb.
    rewrite Hw, <- app_assoc in Hb.
    rewrite skipn_app_short in Hb by lia.
    rewrite (marker_at_app _ _ Hmj) in Hb. discriminate. }
  rewrite Hr in Hbm |- *.
  destruct (blocks_single Q r Hbm Hno) as [Hb ->]. f_equal.
  unfold block_at at 1. cbn [tl]. rewrite Hb.
  change (1 + List.length r) with (S (List.length r)). cbn [firstn].
  rewrite firstn_all, strip_cons by reflexivity.
  rewrite <- Hr', rstrip_idem, Hr'.
  cbn [header_digits]. rewrite <- Hq.
  destruct (block_at (Q :: s1)) as [lab txt] eqn:Hblk.
  cbn [q_num_str full_text] in *. now rewrite Hr.
Qed.

(** X14. Every block is a fixed point of the segmenter: segmenting the
    text of a block gives that one block again, with the same label and
    the same text. *)
Theorem block_reparses_to_itself doc_text b :
  In b (parse_mcqs_from_text doc_text) ->
  parse_mcqs_from_text (full_text b) = [b].
Proof.
  rewrite !parse_mcqs_blocks. intros Hb.
  destruct (in_blocks b doc_text Hb) as (n & Hm & ->).
  now apply block_reparse.
Qed.

Lemma blocks_none s :
  (forall j, marker_at (skipn j s) = false) -> blocks s = [].
Proof.
  induction s as [|c s IH]; intros H; [reflexivity|].
  pose proof (H 0) as H0. cbn [skipn] in H0.
  cbn [blocks]. rewrite H0, IH; [reflexivity|].
  intros j. exact (H (S j)).
Qed.

Lemma marker_needs_Q_and_digit s :
  marker_at s = true ->
  existsb (fun c => (c =? Q)%N) s = true /\ existsb is_digit s = true.
Proof.
  destruct s as [|c s]; [discriminate|]. cbn [marker_at existsb].
  intros H. apply andb_true_iff in H as [-> H]. split; [reflexivity|].
  apply orb_true_iff. right.
  rewrite <- (takeWhile_dropWhile is_space s), existsb_app.
  apply orb_true_iff. right.
  destruct (dropWhile is_space s) as [|d r]; [discriminate|].
  cbn [existsb]. now rewrite H.
Qed.

Lemma existsb_skipn (p : N -> bool) j (s : text) :
  existsb p (skipn j s) = true -> existsb p s = true.
Proof.
  rewrite <- (firstn_skipn j s) at 2. rewrite existsb_app.
  intros ->. apply orb_true_r.
Qed.

(** X15. A document without a capital Q, or without a decimal digit,
    has no block: a small q does not start a question, and neither does
    a Q with no number. *)
Theorem no_capital_q_or_no_digit doc_text :
  existsb (fun c => (c =? Q)%N) doc_text = false
  \/ existsb is_digit doc_text = false ->
  parse_mcqs_from_text doc_text = [].
Proof.
  intros H. rewrite parse_mcqs_blocks. apply blocks_none. intros j.
  destruct (marker_at (skipn j doc_text)) eqn:Hm; [|reflexivity]. exfalso.
  apply marker_needs_Q_and_digit in Hm as [H1 H2].
  apply existsb_skipn in H1, H2. destruct H as [H|H]; congruence.
Qed.


(** ** The document and the report *)

(** X16. The report sent for a fetched document has at least one entry
    and at most one for each question marker of the document; it has
    fewer only when the answer for the last block reported was the
    rate-limit signal. *)
Theorem report_bounded_by_markers url doc_id content doc_text report :
  absent (GOOGLE_API_KEY E) = false ->
  extract_doc_id url = Some doc_id ->
  requests_get E (export_url doc_id) = Response 200 content ->
  decode content = Some doc_text ->
  fst (audit_document url []) = Ok report ->
  1 <= List.length report <= count_markers doc_text
  /\ (List.length report = count_markers doc_text
      \/ exists k q,
           List.length report = S k
           /\ nth_error (parse_mcqs_from_text doc_text) k = Some q
           /\ rate_limited (answer (S k) (full_text q)) = true).
Proof.
  intros Hkey Hid Hget Hdec.
  rewrite (audit_document_fetched url doc_id content doc_text Hkey Hid Hget Hdec).
  destruct doc_text as [|x t]; [discriminate|].
  pose proof (blocks_length (x :: t)) as Hcount.
  rewrite <- parse_mcqs_blocks in Hcount.
  destruct (parse_mcqs_from_text (x :: t)) as [|q qs] eqn:Hp; [discriminate|].
  change [EvGet (export_url doc_id)] with ([EvGet (export_url doc_id)] ++ []).
  rewrite (audit_loop_frame [EvGet (export_url doc_id)] (q :: qs) [] [] eq_refl).
  cbn [fst]. intros Hr.
  pose proof (loop_report_length (q :: qs) [] [] report Hr) as Hlen.
  change (calls_made []) with 0 in Hlen. cbn [List.length Nat.add] in Hlen.
  apply loop_report_grows in Hr as [_ Hr].
  specialize (Hr ltac:(discriminate)). cbn [List.length] in Hr.
  destruct (loop_events_calls (q :: qs) 1) as (H1 & _ & H3).
  rewrite <- Hcount. rewrite Hlen. split; [lia|].
  destruct H3 as [H3|(k & q' & Hk & Hq & Hrl)]; [now left|].
  right. exists k, q'. auto.
Qed.

(** X17. The handler looks at nothing of a link but the id it finds in
    it: a request with a link and a request with the export address of
    the id of that link are answered alike, with the same report or
    error after the same fetch, calls and pauses. *)
Theorem link_forms_agree url doc_id :
  extract_doc_id url = Some doc_id ->
  audit_document url [] = audit_document (export_url doc_id) [].
Proof.
  intros Hid. rewrite !audit_document_cases, Hid.
  pose proof Hid as Hf. rewrite extract_doc_id_first in Hf.
  apply first_id_shape in Hf as (pre & rest & _ & Hne & Hall & _).
  now rewrite extract_doc_id_first, (first_id_export doc_id Hne Hall).
Qed.

(** ** A label longer than the limit *)

Lemma ones_digits n : forallb is_digit (repeat 49%N n) = true.
Proof.
  induction n as [|n IH]; cbn [repeat forallb]; [reflexivity|].
  rewrite IH. reflexivity.
Qed.




(** [int] rejects a string of digits longer than the limit. *)
Lemma py_int_long l :
  forallb is_digit l = true -> int_max_str_digits < List.length l ->
  py_int l = None.
Proof.
  intros Hall Hlen. unfold py_int. rewrite (filter_all _ _ Hall).
  apply Nat.leb_gt in Hlen. now rewrite Hlen.
Qed.




End Auditor.

(* ================================================================== *)
(** * The claims on concrete worlds *)
(* ================================================================== *)

Lemma ascii_digits_only_not_space :
  forall c d : N, (128 <= c)%N -> ascii_digits_only c = Some d -> is_space c = false.
Proof. intros c d _ H. discriminate H. Qed.

Lemma arabic_indic_digits_not_space :
  forall c d : N,
    (128 <= c)%N -> arabic_indic_digits c = Some d -> is_space c = false.
Proof.
  intros c d _. unfold arabic_indic_digits.
  destruct ((1632 <=? c) && (c <=? 1641))%N eqn:H; [intros _|discriminate].
  apply andb_true_iff in H as [H1 H2].
  apply N.leb_le in H1. apply N.leb_le in H2.
  destruct (is_space c) eqn:Hs; auto. exfalso.
  unfold is_space in Hs.
  rewrite !orb_true_iff, !andb_true_iff, !N.leb_le, !N.eqb_eq in Hs. lia.
Qed.


Lemma arabic_indic_digits_value :
  forall c d : N,
    (128 <= c)%N -> arabic_indic_digits c = Some d -> (d <= 9)%N.
Proof.
  intros c d _. unfold arabic_indic_digits.
  destruct ((1632 <=? c) && (c <=? 1641))%N eqn:H; [|discriminate].
  apply andb_true_iff in H as [H1 H2].
  apply N.leb_le in H1. apply N.leb_le in H2.
  intros Hd. injection Hd as <-. lia.
Qed.

(** A question numbered in Arabic-Indic digits: [\d] matches them and
    [int] converts them. *)
Example arabic_indic_question :
  parse_mcqs_from_text arabic_indic_digits [81; 32; 1635; 1633; 32; 63]%N
  = [{| q_num_str := [1635; 1633]%N; full_text := [81; 32; 1635; 1633; 32; 63]%N |}]
  /\ py_int arabic_indic_digits [1635; 1633]%N = Some 31%Z.
Proof. split; vm_compute; reflexivity. Qed.

(** The example of the specification: one question, one block. *)
Example one_question_one_block :
  parse_mcqs_from_text ascii_digits_only (str "Q1 What is 2+2? A)4 B)2+2 C)5 D)6")
  = [sample_q1].
Proof. vm_compute. reflexivity. Qed.

(** The sample document has three markers; "Quiz" starts none. *)
Example sample_blocks :
  parse_mcqs_from_text ascii_digits_only sample_text
  = [sample_q1; sample_q2; sample_q3].
Proof. vm_compute. reflexivity. Qed.

Example sample_spans :
  map (fun m => (Re.m_start m, Re.m_end m))
      (Re.finditer (regex ascii_digits_only) sample_text)
  = [(6, 40); (40, 69); (69, 78)].
Proof. vm_compute. reflexivity. Qed.

Example sample_document_id : extract_doc_id sample_url = Some (str "1AbC-_x").
Proof. vm_compute. reflexivity. Qed.

Example sample_decoded : decode sample_bytes = Some sample_text.
Proof. vm_compute. reflexivity. Qed.

(** An error message that merely contains 429 is read as the rate-limit
    signal, whatever raised it. *)
Example message_with_429 :
  run_mcq_audit_gemini
    {| GOOGLE_API_KEY := Some (str "secret");
       requests_get := fun _ => Response 200 [];
       generate := fun _ _ =>
         Failed (str "Expecting ',' delimiter: line 1 column 430 (char 429)") |}
    (str "Q1") []
  = (Ok (PStr RATE_LIMIT_ERROR), [EvCall 1 (str "Q1")]).
Proof. vm_compute. reflexivity. Qed.

Lemma segmenter_partition_witness :
  count_markers ascii_digits_only sample_text = 3
  /\ List.length (parse_mcqs_from_text ascii_digits_only sample_text)
     = count_markers ascii_digits_only sample_text
  /\ tiles (Re.finditer (regex ascii_digits_only) sample_text)
           (to_boundary ascii_digits_only sample_text) (List.length sample_text).
Proof.
  split; [vm_compute; reflexivity|].
  pose proof (segmenter_partition ascii_digits_only ascii_digits_only_not_space
                sample_text) as (H1 & _ & _ & _ & H4 & _).
  split; [exact H1|exact H4].
Defined.

Lemma label_is_header_digits_witness :
  In sample_q3 (parse_mcqs_from_text ascii_digits_only sample_text)
  /\ exists r,
       full_text sample_q3 = Q :: r
       /\ q_num_str sample_q3
          = takeWhile (is_digit ascii_digits_only) (dropWhile is_space r).
Proof.
  assert (H : In sample_q3 (parse_mcqs_from_text ascii_digits_only sample_text)).
  { vm_compute. right. right. left. reflexivity. }
  split; [exact H|].
  exact (label_is_header_digits ascii_digits_only ascii_digits_only_not_space
           sample_text sample_q3 H).
Defined.



Lemma long_label_refused :
  py_int ascii_digits_only (q_num_str long_label_block) = None.
Proof.
  apply py_int_long; [apply ones_digits|].
  cbn [q_num_str long_label_block]. rewrite repeat_length.
  apply Nat.lt_succ_diag_r.
Qed.



(** Values that [json.loads] builds and the framework cannot send. *)
Example values_not_rendered :
  renderable (PFloat PrimFloat.nan) = false
  /\ renderable (PList [PFloat PrimFloat.neg_infinity]) = false
  /\ renderable (PStr [55296%N]) = false
  /\ renderable (PDict [([56320%N], PInt 1)]) = false
  /\ renderable surrogate_verdict = false
  /\ renderable (sample_verdict 7) = true.
Proof. repeat (split; [vm_compute; reflexivity|]). vm_compute. reflexivity. Qed.

(** The limit of [int] counts digits: 4300 are accepted, 4301 are not. *)
Example limit_of_int :
  (exists z, py_int ascii_digits_only (repeat 49%N 4300) = Some z)
  /\ py_int ascii_digits_only (repeat 49%N 4301) = None.
Proof.
  split; [|exact long_label_refused].
  apply (py_int_digits ascii_digits_only ascii_digits_only_not_space).
  - discriminate.
  - apply ones_digits.
  - rewrite repeat_length. apply Nat.le_refl.
Qed.



Lemma no_marker_no_question_witness :
  count_markers ascii_digits_only (str "Minutes of the meeting.") = 0
  /\ parse_mcqs_from_text ascii_digits_only (str "Minutes of the meeting.") = []
  /\ exists detail,
       audit_document ascii_digits_only prose sample_url []
       = (Raise (HTTPException 404 detail), [EvGet (export_url (str "1AbC-_x"))])
       /\ (str "Minutes of the meeting." <> [] ->
           detail = str "No valid question blocks (e.g., 'Q1') found.").
Proof.
  assert (H0 : count_markers ascii_digits_only (str "Minutes of the meeting.") = 0)
    by (vm_compute; reflexivity).
  split; [exact H0|].
  pose proof (no_marker_no_question ascii_digits_only prose
                ascii_digits_only_not_space (str "Minutes of the meeting.") H0)
    as (Hp & Hd).
  split; [exact Hp|].
  apply (Hd sample_url (str "1AbC-_x")
            (String.list_byte_of_string "Minutes of the meeting."));
    vm_compute; reflexivity.
Defined.

(** C6: the empty document has no marker, and the error it is answered
    with is not that of no question found. *)
Lemma empty_document_is_not_no_questions :
  count_markers ascii_digits_only [] = 0
  /\ decode [] = Some []
  /\ audit_document ascii_digits_only blank sample_url []
     = (Raise (HTTPException 404 (str "Failed to get document text. Is it public?")),
        [EvGet (export_url (str "1AbC-_x"))])
  /\ str "Failed to get document text. Is it public?"
     <> str "No valid question blocks (e.g., 'Q1') found.".
Proof.
  split; [reflexivity|]. split; [reflexivity|].
  split; [vm_compute; reflexivity|]. discriminate.
Qed.

Lemma empty_document_is_fetch_failure_witness :
  audit_document ascii_digits_only blank sample_url []
  = (Raise (HTTPException 404 (str "Failed to get document text. Is it public?")),
     [EvGet (export_url (str "1AbC-_x"))]).
Proof.
  apply (empty_document_is_fetch_failure ascii_digits_only blank sample_url
           (str "1AbC-_x")); vm_compute; reflexivity.
Defined.

(** C7: without the credential the start of the process does not fail. *)
Lemma start_without_key_serves :
  absent None = true
  /\ snd (module_init None) = Serving false
  /\ ~ (forall key, absent key = true -> snd (module_init key) = Aborted).
Proof.
  split; [reflexivity|]. split; [reflexivity|].
  intros H. specialize (H None eq_refl). discriminate H.
Qed.

Lemma missing_key_rejects_every_request_witness :
  absent (GOOGLE_API_KEY keyless) = true
  /\ audit_document ascii_digits_only keyless sample_url []
     = (Raise (HTTPException 500 (str "Server is missing GOOGLE_API_KEY")), []).
Proof.
  split; [reflexivity|].
  exact (proj1 (proj2 (missing_key_rejects_every_request ascii_digits_only keyless
                         sample_url eq_refl))).
Defined.

Lemma all_verdicts_in_order_witness :
  audit_loop ascii_digits_only obliging [sample_q1; sample_q2; sample_q3] [] []
  = (Ok [sample_verdict 7; sample_verdict 7; sample_verdict 7],
     [EvCall 1 (full_text sample_q1); EvSleep 5;
      EvCall 2 (full_text sample_q2); EvSleep 5;
      EvCall 3 (full_text sample_q3); EvSleep 5]).
Proof.
  apply (all_verdicts_in_order ascii_digits_only obliging
           [sample_q1; sample_q2; sample_q3]).
  intros [|[|[|k]]] q H; reflexivity.
Defined.





(** C5: the call that is answered with the rate-limit signal is followed
    by no pause. *)
Lemma rate_limited_call_has_no_pause :
  snd (audit_loop ascii_digits_only throttled [sample_q1; sample_q2; sample_q3] [] [])
  = [EvCall 1 (full_text sample_q1); EvSleep 5; EvCall 2 (full_text sample_q2)]
  /\ ~ paced_after_every_call
         (snd (audit_loop ascii_digits_only throttled
                 [sample_q1; sample_q2; sample_q3] [] [])).
Proof.
  assert (Ht : snd (audit_loop ascii_digits_only throttled
                      [sample_q1; sample_q2; sample_q3] [] [])
               = [EvCall 1 (full_text sample_q1); EvSleep 5;
                  EvCall 2 (full_text sample_q2)])
    by (vm_compute; reflexivity).
  split; [exact Ht|].
  rewrite Ht. intros H.
  destruct (H [EvCall 1 (full_text sample_q1); EvSleep 5] 2
              (full_text sample_q2) [] eq_refl) as [post' Hp].
  discriminate Hp.
Qed.

Lemma pause_unless_rate_limited_witness :
  Forall (fun q => py_int ascii_digits_only (q_num_str q) <> None)
         [sample_q1; sample_q2; sample_q3]
  /\ paced_unless_rate_limited throttled
       (snd (audit_loop ascii_digits_only throttled
               [sample_q1; sample_q2; sample_q3] [] [])).
Proof.
  assert (Hl : Forall (fun q => py_int ascii_digits_only (q_num_str q) <> None)
                      [sample_q1; sample_q2; sample_q3]).
  { repeat constructor; vm_compute; discriminate. }
  split; [exact Hl|].
  exact (pause_unless_rate_limited ascii_digits_only throttled
           [sample_q1; sample_q2; sample_q3] Hl).
Defined.

(** * The further properties on concrete worlds *)
(* ================================================================== *)

Lemma doc_id_is_first_run_witness :
  extract_doc_id sample_url = Some (str "1AbC-_x")
  /\ exists pre rest,
       sample_url = pre ++ str "/d/" ++ str "1AbC-_x" ++ rest
       /\ match rest with c :: _ => id_char c = false | [] => True end.
Proof.
  assert (H : extract_doc_id sample_url = Some (str "1AbC-_x"))
    by (vm_compute; reflexivity).
  split; [exact H|].
  destruct (doc_id_is_first_run sample_url (str "1AbC-_x") H)
    as (pre & rest & H1 & _ & _ & H2 & _).
  exists pre, rest. split; [exact H1|exact H2].
Defined.

Lemma link_without_id_is_rejected_witness :
  first_id plain_link = None
  /\ audit_document ascii_digits_only obliging plain_link []
     = (Raise (HTTPException 400 (str "Invalid Google Doc link.")), []).
Proof.
  assert (H : first_id plain_link = None) by (vm_compute; reflexivity).
  split; [exact H|].
  apply (link_without_id_is_rejected ascii_digits_only obliging plain_link);
    [reflexivity|].
  apply first_id_none. exact H.
Defined.

Lemma export_url_round_trip_witness :
  str "1AbC-_x" <> []
  /\ forallb id_char (str "1AbC-_x") = true
  /\ extract_doc_id (export_url (str "1AbC-_x")) = Some (str "1AbC-_x").
Proof.
  assert (H1 : str "1AbC-_x" <> []) by (vm_compute; discriminate).
  assert (H2 : forallb id_char (str "1AbC-_x") = true) by (vm_compute; reflexivity).
  split; [exact H1|]. split; [exact H2|].
  exact (export_url_round_trip (str "1AbC-_x") H1 H2).
Defined.

Lemma failed_fetch_is_not_found_witness :
  requests_get forbidden (export_url (str "1AbC-_x")) = Response 403 []
  /\ audit_document ascii_digits_only forbidden sample_url []
     = (Raise (HTTPException 404 (str "Failed to get document text. Is it public?")),
        [EvGet (export_url (str "1AbC-_x"))]).
Proof.
  split; [reflexivity|].
  apply (failed_fetch_is_not_found ascii_digits_only forbidden sample_url
           (str "1AbC-_x")).
  - reflexivity.
  - vm_compute; reflexivity.
  - cbn. discriminate.
Defined.

Lemma undecodable_body_is_server_error_witness :
  decode [Byte.x51; Byte.xff; Byte.x31] = None
  /\ audit_document ascii_digits_only garbled sample_url []
     = (Raise UnicodeDecodeError, [EvGet (export_url (str "1AbC-_x"))])
  /\ status_of (fst (audit_document ascii_digits_only garbled sample_url []))
     = 500%Z.
Proof.
  assert (H : decode [Byte.x51; Byte.xff; Byte.x31] = None)
    by (vm_compute; reflexivity).
  split; [exact H|].
  apply (undecodable_body_is_server_error ascii_digits_only garbled sample_url
           (str "1AbC-_x") [Byte.x51; Byte.xff; Byte.x31]).
  - reflexivity.
  - vm_compute; reflexivity.
  - reflexivity.
  - exact H.
Defined.


Lemma one_entry_per_call_witness :
  Forall (fun q => py_int ascii_digits_only (q_num_str q) <> None)
         [sample_q1; sample_q2; sample_q3]
  /\ exists report,
       fst (audit_loop ascii_digits_only throttled
              [sample_q1; sample_q2; sample_q3] [] []) = Ok report
       /\ List.length report
          = calls_made (snd (audit_loop ascii_digits_only throttled
                               [sample_q1; sample_q2; sample_q3] [] [])).
Proof.
  assert (Hl : Forall (fun q => py_int ascii_digits_only (q_num_str q) <> None)
                      [sample_q1; sample_q2; sample_q3]).
  { repeat constructor; vm_compute; discriminate. }
  split; [exact Hl|].
  destruct (one_entry_per_call ascii_digits_only throttled
              [sample_q1; sample_q2; sample_q3] Hl) as (report & H1 & H2 & _).
  exists report. split; [exact H1|exact H2].
Defined.

Lemma report_entries_witness :
  fst (audit_loop ascii_digits_only mute [sample_q1; sample_q2; sample_q3] [] [])
  = Ok [sample_verdict 1;
        inconclusive 2 (str "Failed to audit (API or JSON error)");
        sample_verdict 3]
  /\ exists q,
       nth_error [sample_q1; sample_q2; sample_q3] 1 = Some q
       /\ truthy (answer mute 2 (full_text q)) = false.
Proof.
  assert (H : fst (audit_loop ascii_digits_only mute
                     [sample_q1; sample_q2; sample_q3] [] [])
              = Ok [sample_verdict 1;
                    inconclusive 2 (str "Failed to audit (API or JSON error)");
                    sample_verdict 3])
    by (vm_compute; reflexivity).
  split; [exact H|].
  destruct (report_entries ascii_digits_only mute
              [sample_q1; sample_q2; sample_q3] _ H 1
              (inconclusive 2 (str "Failed to audit (API or JSON error)"))
              eq_refl) as (q & Hq & Hc).
  exists q. split; [exact Hq|].
  cbv zeta in Hc.
  destruct Hc as [(_ & _ & He)|[(_ & Ht & _)|(_ & Hn & _)]].
  - cbn [nth_error] in Hq. injection Hq as <-. vm_compute in He. discriminate He.
  - exact Ht.
  - cbn [List.length] in Hn. discriminate Hn.
Defined.

Lemma audit_without_rate_limit_witness :
  Forall (fun q => py_int ascii_digits_only (q_num_str q) <> None)
         [sample_q1; sample_q2; sample_q3]
  /\ exists report,
       audit_loop ascii_digits_only flaky [sample_q1; sample_q2; sample_q3] [] []
       = (Ok report, paced_calls 1 [sample_q1; sample_q2; sample_q3])
       /\ List.length report = 3
       /\ total_sleep (paced_calls 1 [sample_q1; sample_q2; sample_q3]) = 15%Z.
Proof.
  assert (Hl : Forall (fun q => py_int ascii_digits_only (q_num_str q) <> None)
                      [sample_q1; sample_q2; sample_q3]).
  { repeat constructor; vm_compute; discriminate. }
  split; [exact Hl|].
  apply (audit_without_rate_limit ascii_digits_only flaky
           [sample_q1; sample_q2; sample_q3] Hl).
  intros [|[|[|k]]] q H; cbn [nth_error] in H;
    try (injection H as <-; vm_compute; reflexivity).
  destruct k; discriminate H.
Defined.


Lemma blocks_are_trimmed_pieces_witness :
  In sample_q2 (parse_mcqs_from_text ascii_digits_only sample_text)
  /\ strip (full_text sample_q2) = full_text sample_q2
  /\ exists before after, sample_text = before ++ full_text sample_q2 ++ after.
Proof.
  assert (H : In sample_q2 (parse_mcqs_from_text ascii_digits_only sample_text)).
  { vm_compute. right. left. reflexivity. }
  split; [exact H|].
  exact (blocks_are_trimmed_pieces ascii_digits_only ascii_digits_only_not_space
           sample_text sample_q2 H).
Defined.

Lemma segmenter_concat_witness :
  marker_at ascii_digits_only (str "Q 3 Last?") = true
  /\ parse_mcqs_from_text ascii_digits_only
       (str "Quiz. Q1 What is 2+2? A)4 B)2+2 C)5 D)6 Q2 Pick one. A)a B)b C)c D)d "
        ++ str "Q 3 Last?")
     = parse_mcqs_from_text ascii_digits_only
         (str "Quiz. Q1 What is 2+2? A)4 B)2+2 C)5 D)6 Q2 Pick one. A)a B)b C)c D)d ")
       ++ parse_mcqs_from_text ascii_digits_only (str "Q 3 Last?").
Proof.
  assert (H : marker_at ascii_digits_only (str "Q 3 Last?") = true)
    by (vm_compute; reflexivity).
  split; [exact H|].
  exact (segmenter_concat ascii_digits_only ascii_digits_only_not_space
           (str "Quiz. Q1 What is 2+2? A)4 B)2+2 C)5 D)6 Q2 Pick one. A)a B)b C)c D)d ")
           (str "Q 3 Last?") H).
Defined.

Lemma block_reparses_to_itself_witness :
  In sample_q1 (parse_mcqs_from_text ascii_digits_only sample_text)
  /\ parse_mcqs_from_text ascii_digits_only (full_text sample_q1) = [sample_q1].
Proof.
  assert (H : In sample_q1 (parse_mcqs_from_text ascii_digits_only sample_text)).
  { vm_compute. left. reflexivity. }
  split; [exact H|].
  exact (block_reparses_to_itself ascii_digits_only ascii_digits_only_not_space
           sample_text sample_q1 H).
Defined.

Lemma no_capital_q_or_no_digit_witness :
  existsb (fun c => (c =? Q)%N) (str "q1 what is 2+2? q2 and 3+3?") = false
  /\ parse_mcqs_from_text ascii_digits_only (str "q1 what is 2+2? q2 and 3+3?") = [].
Proof.
  assert (H : existsb (fun c => (c =? Q)%N) (str "q1 what is 2+2? q2 and 3+3?")
              = false) by (vm_compute; reflexivity).
  split; [exact H|].
  exact (no_capital_q_or_no_digit ascii_digits_only ascii_digits_only_not_space
           (str "q1 what is 2+2? q2 and 3+3?") (or_introl H)).
Defined.

Lemma report_bounded_by_markers_witness :
  count_markers ascii_digits_only sample_text = 3
  /\ fst (audit_document ascii_digits_only throttled sample_url [])
     = Ok [sample_verdict 1;
           inconclusive 2 (str "Failed: API Rate Limit hit.")]
  /\ 1 <= 2 <= count_markers ascii_digits_only sample_text.
Proof.
  split; [vm_compute; reflexivity|].
  assert (H : fst (audit_document ascii_digits_only throttled sample_url [])
              = Ok [sample_verdict 1;
                    inconclusive 2 (str "Failed: API Rate Limit hit.")])
    by (vm_compute; reflexivity).
  split; [exact H|].
  assert (Hid : extract_doc_id sample_url = Some (str "1AbC-_x"))
    by (vm_compute; reflexivity).
  assert (Hdec : decode sample_bytes = Some sample_text)
    by (vm_compute; reflexivity).
  exact (proj1 (report_bounded_by_markers ascii_digits_only throttled
                  ascii_digits_only_not_space sample_url (str "1AbC-_x")
                  sample_bytes sample_text _ eq_refl Hid eq_refl Hdec H)).
Defined.

Lemma link_forms_agree_witness :
  extract_doc_id sample_url = Some (str "1AbC-_x")
  /\ audit_document ascii_digits_only flaky sample_url []
     = audit_document ascii_digits_only flaky
         (str "https://docs.google.com/document/d/1AbC-_x/export?format=txt") [].
Proof.
  assert (H : extract_doc_id sample_url = Some (str "1AbC-_x"))
    by (vm_compute; reflexivity).
  split; [exact H|].
  exact (link_forms_agree ascii_digits_only flaky sample_url (str "1AbC-_x") H).
Defined.
